(** * Positioning systems: k-best fingerprint matching and N-lateration

    A shallow embedding of [kbest.py] and [nlateration.py].

    - Python control flow.  Every function of the two modules wraps its body
      in [try: ... except ...: print(...); return default].  A computation is
      modelled as the lines it prints together with the way it ends
      ([Returns v] or [Raises e]); [try_except] is the handler.
    - Numbers.  The code computes on numpy [float64].  It is translated once,
      over the interface [Numeric], and read at two instances: the real
      numbers (rounding-free arithmetic, instance [R_numeric]) and IEEE 754
      binary64 (the kernel's primitive floats, instance [binary64_numeric]).
    - Library calls.  [np.argsort] and [scipy.optimize.minimize] are not
      code of the repository: they are section variables, and what is used
      of their contract is stated as a hypothesis where it is used. *)

From Stdlib Require Import PrimFloat SpecFloat FloatOps FloatAxioms.
From Stdlib Require Import List ZArith Bool Arith Lia String.
From Stdlib Require Import Permutation Sorted.
From Stdlib Require Import Reals Lra.
Import ListNotations.

Set Implicit Arguments.

(* A decimal literal denotes the nearest binary64 number, as in Python. *)
Set Warnings "-inexact-float".

(** ** Python exceptions, printing and [try]/[except] *)

Module Py.

(** The exceptions the two modules can meet. *)
Inductive exn : Type :=
| AssertionError (msg : string)
| IndexError (index size : nat)          (* numpy: index out of bounds *)
| OtherError (msg : string).             (* anything else a library raises *)

(** [print(f"{prefix}{e}")]. *)
Record line : Type := Line { line_prefix : string; line_exn : exn }.

Inductive outcome (A : Type) : Type :=
| Returns (v : A)
| Raises (e : exn).
Arguments Raises {A} e.

(** What was printed, and how the computation ended. *)
Definition py (A : Type) : Type := (list line * outcome A)%type.

Definition ret {A} (v : A) : py A := ([], Returns v).
Definition raise {A} (e : exn) : py A := ([], Raises e).
Definition print (l : line) : py unit := ([l], Returns tt).

Definition bind {A B} (m : py A) (k : A -> py B) : py B :=
  match m with
  | (out, Returns v) => let (out', r) := k v in (out ++ out', r)
  | (out, Raises e) => (out, Raises e)
  end.

(** [assert cond, msg] *)
Definition assert_ (cond : bool) (msg : string) : py unit :=
  if cond then ret tt else raise (AssertionError msg).

(** [try: body  except ... as e: handler e] *)
Definition try_except {A} (body : py A) (handler : exn -> py A) : py A :=
  match body with
  | (out, Raises e) => let (out', r) := handler e in (out ++ out', r)
  | (out, Returns v) => (out, Returns v)
  end.

Definition printed {A} (m : py A) : list line := fst m.
Definition outcome_of {A} (m : py A) : outcome A := snd m.

End Py.
Export Py.

Declare Scope py_scope.
Delimit Scope py_scope with py.
Notation "x <- c ;; k" := (bind c (fun x => k))
(at level 61, c at next level, right associativity) : py_scope.
Notation "c ;;; k" := (bind c (fun _ => k))
(at level 61, right associativity) : py_scope.

(** ** Numbers *)

(** The arithmetic the code uses.  [flt] is the comparison [np.argsort]
  orders by. *)
Class Numeric (F : Type) : Type := {
fzero : F;
fone : F;
fadd : F -> F -> F;
fsub : F -> F -> F;
fmul : F -> F -> F;
fdiv : F -> F -> F;
fsqrt : F -> F;
flt : F -> F -> bool
}.

(** Rounding-free arithmetic. *)
#[export] Instance R_numeric : Numeric R := {
fzero := 0%R;
fone := 1%R;
fadd := Rplus;
fsub := Rminus;
fmul := Rmult;
fdiv := Rdiv;
fsqrt := sqrt;
flt := fun x y => if Rlt_dec x y then true else false
}.

(** numpy's sort order on floating-point numbers puts NaN last:
  [a < b || (b != b && a == a)]. *)
Definition np_float_less (a b : PrimFloat.float) : bool :=
PrimFloat.ltb a b || (PrimFloat.is_nan b && negb (PrimFloat.is_nan a)).

(** IEEE 754 binary64. *)
#[export] Instance binary64_numeric : Numeric PrimFloat.float := {
fzero := PrimFloat.zero;
fone := PrimFloat.one;
fadd := PrimFloat.add;
fsub := PrimFloat.sub;
fmul := PrimFloat.mul;
fdiv := PrimFloat.div;
fsqrt := PrimFloat.sqrt;
flt := np_float_less
}.

(** ** kbest.py *)

Section Kbest.

Context {F : Type} {num : Numeric F}.

(** [np.argsort], default [kind]. *)
Variable argsort : list F -> list nat.

(** A two-dimensional [numpy.ndarray]: [shape = (length rows, shape1)]. *)
Record ndarray2 : Type := Ndarray2 { shape1 : nat; rows : list (list F) }.

Definition shape0 (a : ndarray2) : nat := List.length (rows a).

(** Every row of an array has the array's width. *)
Definition rectangular (a : ndarray2) : Prop :=
  Forall (fun r => List.length r = shape1 a) (rows a).

(** [x ** 2] *)
Definition square (x : F) : F := fmul x x.

(** [np.sum] of a one-dimensional array, added from left to right.
    (numpy adds long arrays in blocks; the order changes nothing in
    rounding-free arithmetic, nor whether a binary64 sum is NaN or
    infinite.) *)
Definition np_sum (v : list F) : F := fold_left fadd v fzero.

(** [row - mp_vector], element by element. *)
Definition vec_sub (r v : list F) : list F :=
  map (fun p => fsub (fst p) (snd p)) (combine r v).

(** [v[indices]]: numpy raises [IndexError] at an index out of bounds. *)
Fixpoint take_at {A} (v : list A) (indices : list nat) : py (list A) :=
  match indices with
  | [] => ret []
  | i :: rest =>
      match nth_error v i with
      | Some a => (tl <- take_at v rest ;; ret (a :: tl))%py
      | None => raise (IndexError i (List.length v))
      end
  end.

Definition compute_similarity (reference_vectors : ndarray2)
    (mp_vector : list F) : py (list F) :=
  try_except
    (assert_ (shape1 reference_vectors =? List.length mp_vector)%nat
       "Dimension mismatch between reference vectors and mp_vector" ;;;
     let differences :=
       map (fun r => vec_sub r mp_vector) (rows reference_vectors) in
     let squared_differences := map (map square) differences in
     let metrics := map (fun r => fsqrt (np_sum r)) squared_differences in
     ret metrics)%py
    (fun e =>
       (print (Line "Error in compute_similarity: " e) ;;; ret [])%py).

Definition find_best_cells (reference_vectors : ndarray2)
    (mp_vector : list F) (k : Z) : py (list nat * list F) :=
  try_except
    (assert_ (0 <? k)%Z "k must be greater than zero" ;;;
     metrics <- compute_similarity reference_vectors mp_vector ;;
     assert_ (0 <? List.length metrics)%nat "Metrics computation failed" ;;;
     let best_indices := firstn (Z.to_nat k) (argsort metrics) in
     best_metrics <- take_at metrics best_indices ;;
     ret (best_indices, best_metrics))%py
    (fun e =>
       (print (Line "Error in find_best_cells: " e) ;;; ret ([], []))%py).

(** What [compute_barycentric_position] returns: a position, or
    [np.array([None, None])]. *)
Inductive estimate : Type :=
| Position (p : list F)
| NonePair.

(** [weights = 1 / metrics; weights /= np.sum(weights)] *)
Definition normalized_weights (metrics : list F) : list F :=
  let weights := map (fun m => fdiv fone m) metrics in
  let total := np_sum weights in
  map (fun w => fdiv w total) weights.

(** [row * w]: a selected row against its weight ([weights[:, np.newaxis]]). *)
Definition scale_row (row : list F) (w : F) : list F :=
  map (fun c => fmul c w) row.

Definition vec_add (u v : list F) : list F :=
  map (fun p => fadd (fst p) (snd p)) (combine u v).

(** [np.sum(a, axis=0)] of an array of width [width]. *)
Definition np_sum_axis0 (width : nat) (a : list (list F)) : list F :=
  fold_left vec_add a (repeat fzero width).

Definition compute_barycentric_position (cell_positions : ndarray2)
    (best_indices : list nat) (metrics : list F) : py estimate :=
  try_except
    (assert_ (List.length best_indices =? List.length metrics)%nat
       "Mismatch in best indices and metrics length" ;;;
     let weights := normalized_weights metrics in
     selected <- take_at (rows cell_positions) best_indices ;;
     let weighted :=
       map (fun p => scale_row (fst p) (snd p)) (combine selected weights) in
     let estimated_position :=
       np_sum_axis0 (shape1 cell_positions) weighted in
     ret (Position estimated_position))%py
    (fun e =>
       (print (Line "Error in compute_barycentric_position: " e) ;;;
        ret NonePair)%py).

End Kbest.

Arguments ndarray2 F : clear implicits.
Arguments estimate F : clear implicits.
Arguments Position {F} p.
Arguments NonePair {F}.

(** ** What [np.argsort] promises, and two functions that keep the promise *)

Section Argsort.

Context {F : Type} {num : Numeric F}.

(** [v[i]], for an index known to be in range. *)
Definition at_ (v : list F) (i : nat) : F := nth i v fzero.

(** Ascending order: no element is less than one before it. *)
Definition ascending (d : list F) : Prop :=
  StronglySorted (fun a b => flt b a = false) d.

(** [p] is a result [np.argsort v] may return: the indices of [v], each
    once, in an order that makes the values ascending.  The default
    [kind] ('quicksort') promises nothing about equal values. *)
Definition sorts (v : list F) (p : list nat) : Prop :=
  Permutation p (seq 0 (List.length v)) /\ ascending (map (at_ v) p).

(** Stable tie-break: of two returned indices whose values are equal in
    the order, the one that comes first is the smaller. *)
Definition ties_in_catalogue_order (v : list F) (p : list nat) : Prop :=
  forall a b i j,
    a < b -> nth_error p a = Some i -> nth_error p b = Some j ->
    flt (at_ v i) (at_ v j) = false -> i < j.

(** Insertion of index [i] behind every index whose value is not
    greater: equal values keep their order ([kind='stable']). *)
Fixpoint insert_behind (v : list F) (i : nat) (p : list nat) : list nat :=
  match p with
  | [] => [i]
  | j :: q =>
      if flt (at_ v i) (at_ v j) then i :: p
      else j :: insert_behind v i q
  end.

(** Insertion of index [i] in front of every index whose value is not
    smaller: equal values end in reverse order. *)
Fixpoint insert_in_front (v : list F) (i : nat) (p : list nat) : list nat :=
  match p with
  | [] => [i]
  | j :: q =>
      if flt (at_ v j) (at_ v i) then j :: insert_in_front v i q
      else i :: p
  end.

Definition argsort_stable (v : list F) : list nat :=
  fold_left (fun p i => insert_behind v i p) (seq 0 (List.length v)) [].

Definition argsort_reversing_ties (v : list F) : list nat :=
  fold_left (fun p i => insert_in_front v i p) (seq 0 (List.length v)) [].

(** The order is a strict weak order. *)
Class StrictWeakOrder : Prop := {
  flt_asym : forall x y, flt x y = true -> flt y x = false;
  flt_negtrans : forall x y z,
    flt x y = false -> flt y z = false -> flt x z = false
}.

End Argsort.

Arguments StrictWeakOrder F {num}.

(** ** nlateration.py *)

Section Nlateration.

Context {F : Type} {num : Numeric F}.

(** An access point.  ([__init__] asserts the types of the fields and
    [radius > 0]; nothing below depends on it.) *)
Record AccessPoint : Type := {
  ap_id : Z;
  ap_x : F;
  ap_y : F;
  ap_z : F;
  ap_radius : F;
  ap_color : string
}.

(** What [calculate_error] returns: the accumulated error, or
    [float('inf')] from its [except] branch. *)
Inductive error_value : Type :=
| Error (e : F)
| InfiniteError.

(** [x, y, z = position]: Python raises [ValueError] on another number
    of values. *)
Definition unpack3 (position : list F) : py (F * F * F) :=
  match position with
  | [x; y; z] => ret (x, y, z)
  | _ => raise (OtherError "wrong number of values to unpack")
  end.

(** One turn of the loop over the access points. *)
Definition accumulate (x y z : F) (error : F) (ap : AccessPoint) : F :=
  let distance :=
    fsqrt (fadd (fadd (square (fsub x (ap_x ap))) (square (fsub y (ap_y ap))))
             (square (fsub z (ap_z ap)))) in
  fadd error (square (fsub distance (ap_radius ap))).

Definition calculate_error (position : list F)
    (access_points : list AccessPoint) : py error_value :=
  try_except
    (assert_ (List.length position =? 3)%nat
       "Position should be a list of 3 coordinates [x, y, z]" ;;;
     xyz <- unpack3 position ;;
     let '(x, y, z) := xyz in
     let error := fold_left (accumulate x y z) access_points fzero in
     ret (Error error))%py
    (fun e =>
       (print (Line "Error in error calculation: " e) ;;;
        ret InfiniteError)%py).

(** The fields of scipy's [OptimizeResult] the code could read. *)
Record OptimizeResult : Type := {
  res_x : list F;
  res_success : bool;
  res_nit : nat
}.

(** [scipy.optimize.minimize(fun, x0, args=...)]: it returns a result
    (converged or not) or raises. *)
Variable minimize :
  (list F -> error_value) -> list F -> outcome OptimizeResult.

(** The objective [minimize] evaluates: [calculate_error] with
    [args=(access_points,)], read for the value it returns
    ([calculate_error] prints only for a position that has not three
    coordinates). *)
Definition objective (access_points : list AccessPoint)
    (position : list F) : error_value :=
  match outcome_of (calculate_error position access_points) with
  | Returns e => e
  | Raises _ => InfiniteError
  end.

(** [trilaterate] returns a position, or [None] when it falls off the
    end of the [except AssertionError] branch. *)
Definition trilaterate (access_points : list AccessPoint)
    : py (option (list F)) :=
  try_except
    (assert_ (3 <=? List.length access_points)%nat
       "At least 3 access points are required for trilateration" ;;;
     let initial_guess := [fzero; fzero; fzero] in
     result <- ([], minimize (objective access_points) initial_guess) ;;
     let estimated_position := res_x result in
     ret (Some estimated_position))%py
    (fun e =>
       match e with
       | AssertionError _ =>
           (print (Line "Input error in trilaterate: " e) ;;; ret None)%py
       | _ =>
           (print (Line "Error in trilateration: " e) ;;;
            ret (Some [fzero; fzero; fzero]))%py
       end).

End Nlateration.

Arguments AccessPoint F : clear implicits.
Arguments error_value F : clear implicits.
Arguments OptimizeResult F : clear implicits.
Arguments Error {F} e.
Arguments InfiniteError {F}.

(** ** The demonstration data of kbest.py

    The arrays hold small integers; the arithmetic on them is exact, in
    numpy's integers as in either instance of [Numeric]. *)

Module Demo.

Definition reference_vectors : ndarray2 R :=
  Ndarray2 3 [[50; 60; 70]; [55; 65; 75]; [40; 50; 60]; [45; 55; 65];
              [30; 40; 50]]%R.

Definition mp_vector : list R := [48; 58; 68]%R.

Definition cell_positions : ndarray2 R :=
  Ndarray2 2 [[0; 0]; [1; 0]; [0; 1]; [1; 1]; [2; 2]]%R.

(** The same data as binary64 numbers. *)
Definition reference_vectors64 : ndarray2 PrimFloat.float :=
  Ndarray2 3 [[50; 60; 70]; [55; 65; 75]; [40; 50; 60]; [45; 55; 65];
              [30; 40; 50]]%float.

Definition mp_vector64 : list PrimFloat.float := [48; 58; 68]%float.

Definition cell_positions64 : ndarray2 PrimFloat.float :=
  Ndarray2 2 [[0; 0]; [1; 0]; [0; 1]; [1; 1]; [2; 2]]%float.

End Demo.

(** ** The properties, in the words of the specification *)

Section Exact.

Local Open Scope R_scope.

(** A sum of real numbers. *)
Definition Rsum (l : list R) : R := fold_right Rplus 0 l.

(** The Euclidean distance from [(x, y, z)] to an anchor's coordinate. *)
Definition euclidean_distance (x y z : R) (ap : AccessPoint R) : R :=
  sqrt ((x - ap_x ap) ^ 2 + (y - ap_y ap) ^ 2 + (z - ap_z ap) ^ 2).

(** The residual objective: for each anchor the squared difference between
    the distance to it and its measured range, summed across anchors. *)
Definition residual (x y z : R) (anchors : list (AccessPoint R)) : R :=
  Rsum (map (fun ap => (euclidean_distance x y z ap - ap_radius ap) ^ 2)
          anchors).

(** The position is exactly consistent with an anchor's range. *)
Definition consistent (x y z : R) (ap : AccessPoint R) : Prop :=
  euclidean_distance x y z ap = ap_radius ap.

(** Coordinate [j] of the weighted sum of some points. *)
Definition weighted_coordinate (weights : list R) (points : list (list R))
    (j : nat) : R :=
  Rsum (map (fun wp => fst wp * nth j (snd wp) 0) (combine weights points)).

(** The weighted sum of points of dimension [width]. *)
Definition weighted_sum (width : nat) (weights : list R)
    (points : list (list R)) : list R :=
  map (weighted_coordinate weights points) (seq 0 width).

(** [p] lies in the convex hull of [points]: it has the dimension of the
    points, and it is a convex combination of them. *)
Definition in_convex_hull (points : list (list R)) (p : list R) : Prop :=
  Forall (fun q => List.length q = List.length p) points /\
  exists weights,
    List.length weights = List.length points /\
    Forall (fun w => 0 <= w) weights /\
    Rsum weights = 1 /\
    p = weighted_sum (List.length p) weights points.

End Exact.

(** ** binary64 through its specification

    [FloatAxioms] relates the primitive operations to their definitions
    on [spec_float]; the comparison of [np.argsort] is read there. *)

Definition sf_is_nan (x : spec_float) : bool := negb (SFeqb x x).

Definition sf_less (a b : spec_float) : bool :=
  SFltb a b || (sf_is_nan b && negb (sf_is_nan a)).

(** A key whose lexicographic order is the order of [sf_less]: the
    infinities, the sign, the exponent and the mantissa, NaN above all. *)
Definition sf_key (x : spec_float) : Z * Z * Z :=
  match x with
  | S754_infinity true => (-2, 0, 0)
  | S754_finite true m e => (-1, - e, - Z.pos m)
  | S754_zero _ => (0, 0, 0)
  | S754_finite false m e => (1, e, Z.pos m)
  | S754_infinity false => (2, 0, 0)
  | S754_nan => (3, 0, 0)
  end%Z.

Definition key_lt (a b : Z * Z * Z) : Prop :=
  let '(a1, a2, a3) := a in
  let '(b1, b2, b3) := b in
  (a1 < b1 \/ (a1 = b1 /\ (a2 < b2 \/ (a2 = b2 /\ a3 < b3))))%Z.

(** ** Inputs the properties are tried on *)

Module Inputs.

(** The distances of the demonstration data, in binary64. *)
Definition metrics64 : list float :=
  Eval vm_compute in
    match outcome_of (compute_similarity Demo.reference_vectors64
                        Demo.mp_vector64) with
    | Returns m => m
    | Raises _ => []
    end.

(** A catalogue in which two cells have the same fingerprint. *)
Definition twin_vectors : ndarray2 float :=
  Ndarray2 3 [[50; 60; 70]; [50; 60; 70]]%float.

Definition twin_metrics : list float :=
  Eval vm_compute in
    match outcome_of (compute_similarity twin_vectors Demo.mp_vector64) with
    | Returns m => m
    | Raises _ => []
    end.

(** A catalogue of width 3 with no entry. *)
Definition empty_catalogue : ndarray2 float := Ndarray2 3 [].

(** A measurement vector of width 2. *)
Definition short_vector : list float := [48; 58]%float.

End Inputs.

(** ** Inputs for nlateration.py *)

Module Anchors.

(** The first two access points of the demonstration. *)
Definition two_access_points : list (AccessPoint float) :=
  [ {| ap_id := 0; ap_x := 0.5; ap_y := 0.5; ap_z := 0.5; ap_radius := 3;
       ap_color := "blue" |};
    {| ap_id := 1; ap_x := 4; ap_y := 0; ap_z := 0; ap_radius := 2;
       ap_color := "red" |} ]%float.

(** The four access points of the demonstration. *)
Definition four_access_points : list (AccessPoint float) :=
  (two_access_points ++
   [ {| ap_id := 2; ap_x := 4; ap_y := 5; ap_z := 5; ap_radius := 4.2;
        ap_color := "green" |};
     {| ap_id := 3; ap_x := 3; ap_y := 3; ap_z := 3; ap_radius := 2.5;
        ap_color := "yellow" |} ])%float.

(** A minimiser that stops where it starts and reports [success]. *)
Definition minimize_reporting (success : bool)
    (f : list float -> error_value float) (x0 : list float)
    : outcome (OptimizeResult float) :=
  Returns {| res_x := x0; res_success := success; res_nit := 0 |}.

End Anchors.

(** An infinity or NaN. *)
Definition sf_special (x : spec_float) : bool :=
  match x with
  | S754_infinity _ | S754_nan => true
  | _ => false
  end.

(** ** A measurement that matches a fingerprint exactly *)

Module PerfectMatch.

(** The fingerprint of the first cell of the demonstration. *)
Definition mp_vector : list float := [50; 60; 70]%float.

(** What [find_best_cells] selects for it: the first distance is zero. *)
Definition selection : list nat * list float :=
  Eval vm_compute in
    match outcome_of (find_best_cells argsort_stable Demo.reference_vectors64
                        mp_vector 4) with
    | Returns r => r
    | Raises _ => ([], [])
    end.

Definition best_indices : list nat := fst selection.
Definition best_metrics : list float := snd selection.

End PerfectMatch.

(** ** A positive distance whose reciprocal is not a binary64 number *)

Module TinyDistance.

(** A positive (subnormal) binary64 number below [2^-1024]. *)
Definition distance : float := 1e-320%float.

(** The sum of the normalised weights lies within one half of 1. *)
Definition sums_to_one_roughly (weights : list float) : bool :=
  (0.5 <=? np_sum weights)%float && (np_sum weights <=? 1.5)%float.

End TinyDistance.

(** ** More of the specification's words, for kbest.py *)

Section ExactKbest.

Local Open Scope R_scope.

(** The squared Euclidean distance between two vectors. *)
Definition squared_distance (r v : list R) : R :=
  Rsum (map (fun p => (fst p - snd p) ^ 2) (combine r v)).

(** Coordinate [j] of the arithmetic mean of some points. *)
Definition mean_coordinate (points : list (list R)) (j : nat) : R :=
  Rsum (map (fun pt => nth j pt 0) points) / INR (List.length points).

(** The arithmetic mean (centroid) of points of dimension [width]. *)
Definition centroid (width : nat) (points : list (list R)) : list R :=
  map (mean_coordinate points) (seq 0 width).

End ExactKbest.

(** ** More of the specification's words, for nlateration.py *)

Section ExactAnchors.

Local Open Scope R_scope.

(** Six times the signed volume of the tetrahedron on four anchors: it is
    not zero exactly when the anchors are not coplanar. *)
Definition volume (a0 a1 a2 a3 : AccessPoint R) : R :=
  let '(b1, c1, d1) :=
    (ap_x a1 - ap_x a0, ap_y a1 - ap_y a0, ap_z a1 - ap_z a0) in
  let '(b2, c2, d2) :=
    (ap_x a2 - ap_x a0, ap_y a2 - ap_y a0, ap_z a2 - ap_z a0) in
  let '(b3, c3, d3) :=
    (ap_x a3 - ap_x a0, ap_y a3 - ap_y a0, ap_z a3 - ap_z a0) in
  b1 * (c2 * d3 - c3 * d2) - c1 * (b2 * d3 - b3 * d2)
  + d1 * (b2 * c3 - b3 * c2).

(** The anchor lies in the plane through [(ox, oy, oz)] with normal
    [(nx, ny, nz)]. *)
Definition in_plane (ox oy oz nx ny nz : R) (ap : AccessPoint R) : Prop :=
  nx * (ap_x ap - ox) + ny * (ap_y ap - oy) + nz * (ap_z ap - oz) = 0.

(** The mirror image of [(x, y, z)] in that plane. *)
Definition mirror (ox oy oz nx ny nz : R) (x y z : R) : list R :=
  let s := 2 * (nx * (x - ox) + ny * (y - oy) + nz * (z - oz))
           / (nx * nx + ny * ny + nz * nz) in
  [x - s * nx; y - s * ny; z - s * nz].

End ExactAnchors.

(** ** Four anchors with noiseless ranges *)

Module Tetrahedron.

Local Open Scope R_scope.

(** An anchor at [(x, y, z)] whose radius is its exact distance to the
    point [(1, 1, 1)]. *)
Definition anchor (id : Z) (x y z : R) : AccessPoint R :=
  {| ap_id := id; ap_x := x; ap_y := y; ap_z := z;
     ap_radius := sqrt ((1 - x) ^ 2 + (1 - y) ^ 2 + (1 - z) ^ 2);
     ap_color := "blue" |}.

Definition a0 : AccessPoint R := anchor 0 0 0 0.
Definition a1 : AccessPoint R := anchor 1 4 0 0.
Definition a2 : AccessPoint R := anchor 2 0 4 0.
Definition a3 : AccessPoint R := anchor 3 0 0 4.

Definition access_points : list (AccessPoint R) := [a0; a1; a2; a3].

(** The three anchors in the plane [z = 0]. *)
Definition ground : list (AccessPoint R) := [a0; a1; a2].

(** A minimiser that lands on [(1, 1, 1)]. *)
Definition minimize_exact (f : list R -> error_value R) (x0 : list R)
    : outcome (OptimizeResult R) :=
  Returns {| res_x := [1; 1; 1]; res_success := true; res_nit := 1 |}.

End Tetrahedron.

(** ** nlateration.py: the constructor of [AccessPoint] and the limits of
    the plot *)

(** Python's numbers beside the arithmetic of [Numeric]: the conversion
    of an [int] (exact in rounding-free arithmetic, to the nearest
    binary64 number otherwise) and the comparison [<]. *)
Class PyNumber (F : Type) : Type := {
  of_int : Z -> F;
  py_lt : F -> F -> bool
}.

#[export] Instance R_pynumber : PyNumber R := {
  of_int := IZR;
  py_lt := fun x y => if Rlt_dec x y then true else false
}.

#[export] Instance binary64_pynumber : PyNumber float := {
  of_int := fun n => SF2Prim (binary_normalize prec emax n 0 false);
  py_lt := PrimFloat.ltb
}.

Section Constructor.

Context {F : Type} {num : Numeric F} {pyn : PyNumber F}.

(** The Python values [AccessPoint.__init__] tells apart. *)
Inductive pyval : Type :=
| PyInt (n : Z)
| PyBool (b : bool)              (* a [bool] is an [int] *)
| PyFloat (x : F)
| PyStr (s : string)
| PyOther.                       (* [None], a list, ... *)

(** [isinstance(v, int)] *)
Definition is_int (v : pyval) : bool :=
  match v with PyInt _ | PyBool _ => true | _ => false end.

(** [isinstance(v, (int, float))] *)
Definition is_number (v : pyval) : bool :=
  match v with PyInt _ | PyBool _ | PyFloat _ => true | _ => false end.

(** [isinstance(v, str)] *)
Definition is_str (v : pyval) : bool :=
  match v with PyStr _ => true | _ => false end.

(** [v > 0], for a number. *)
Definition is_positive (v : pyval) : bool :=
  match v with
  | PyInt n => (0 <? n)%Z
  | PyBool b => b
  | PyFloat x => py_lt (of_int 0) x
  | _ => false
  end.

Definition int_value (v : pyval) : Z :=
  match v with
  | PyInt n => n
  | PyBool b => if b then 1%Z else 0%Z
  | _ => 0%Z
  end.

(** The number as the arithmetic of [calculate_error] reads it. *)
Definition number_value (v : pyval) : F :=
  match v with
  | PyFloat x => x
  | _ => of_int (int_value v)
  end.

Definition string_value (v : pyval) : string :=
  match v with PyStr s => s | _ => EmptyString end.

(** [AccessPoint.__init__]: the assertions are not caught here. *)
Definition AccessPoint_init (id x y z radius color : pyval)
    : py (AccessPoint F) :=
  (assert_ (is_int id) "Access point id must be an integer" ;;;
   assert_ (is_number x) "x-coordinate must be a number" ;;;
   assert_ (is_number y) "y-coordinate must be a number" ;;;
   assert_ (is_number z) "z-coordinate must be a number" ;;;
   assert_ (is_number radius && is_positive radius)
     "radius must be a positive number" ;;;
   assert_ (is_str color) "color must be a string" ;;;
   ret {| ap_id := int_value id;
          ap_x := number_value x;
          ap_y := number_value y;
          ap_z := number_value z;
          ap_radius := number_value radius;
          ap_color := string_value color |})%py.

(** Python's [min] and [max] of a list: the first smallest, the first
    largest; [ValueError] on an empty list. *)
Definition py_min (l : list F) : py F :=
  match l with
  | [] => raise (OtherError "min() arg is an empty sequence")
  | a :: rest =>
      ret (fold_left (fun cur item => if py_lt item cur then item else cur)
             rest a)
  end.

Definition py_max (l : list F) : py F :=
  match l with
  | [] => raise (OtherError "max() arg is an empty sequence")
  | a :: rest =>
      ret (fold_left (fun cur item => if py_lt cur item then item else cur)
             rest a)
  end.

(** The limits [draw] computes for one axis from the coordinates and the
    radii: [min(all_x) - max(all_r) - 1, max(all_x) + max(all_r) + 1]. *)
Definition axis_limits (all_x all_r : list F) : py (F * F) :=
  (min_x <- py_min all_x ;;
   max_r <- py_max all_r ;;
   max_x <- py_max all_x ;;
   max_r' <- py_max all_r ;;
   ret (fsub (fsub min_x max_r) fone, fadd (fadd max_x max_r') fone))%py.

(** The part of [draw] that adjusts the plot limits: the pairs it hands
    to [set_xlim], [set_ylim] and [set_zlim].  (The plotting calls of
    [draw] are left out.) *)
Definition draw_limits (access_points : list (AccessPoint F))
    : py ((F * F) * (F * F) * (F * F)) :=
  let all_x := map (@ap_x F) access_points in
  let all_y := map (@ap_y F) access_points in
  let all_z := map (@ap_z F) access_points in
  let all_r := map (@ap_radius F) access_points in
  (xlim <- axis_limits all_x all_r ;;
   ylim <- axis_limits all_y all_r ;;
   zlim <- axis_limits all_z all_r ;;
   ret (xlim, ylim, zlim))%py.

End Constructor.

Arguments pyval F : clear implicits.
Arguments PyInt {F} n.
Arguments PyBool {F} b.
Arguments PyFloat {F} x.
Arguments PyStr {F} s.
Arguments PyOther {F}.

(** ** website.py

    Flask hands every request the session of the browser that sent it;
    [page_transitions] is one table for the whole process.  A handler is
    modelled as a function from the request's session and the table to
    the response, the session and the table.  [render_template_string] is
    kept as the title and the content it is given, and the table of
    [/stats] as the rows it prints, without the HTML around them. *)

Module Website.

Local Open Scope string_scope.

Section Dict.

Context {K V : Type} (eqb : K -> K -> bool).

(** A Python [dict]: the keys in insertion order, each once. *)
Definition dict : Type := list (K * V).

(** [d.get(k)] *)
Fixpoint dict_get (k : K) (d : dict) : option V :=
  match d with
  | [] => None
  | (k', v) :: rest => if eqb k k' then Some v else dict_get k rest
  end.

(** [d[k] = v]: in place for a key that is there, at the end otherwise. *)
Fixpoint dict_set (k : K) (v : V) (d : dict) : dict :=
  match d with
  | [] => [(k, v)]
  | (k', v') :: rest =>
      if eqb k k' then (k, v) :: rest else (k', v') :: dict_set k v rest
  end.

Definition keys (d : dict) : list K := map fst d.
Definition values (d : dict) : list V := map snd d.

End Dict.

Arguments dict K V : clear implicits.

(** [page_transitions[key]] on a [defaultdict(int)], as a value: 0 for a
    key that is not there. *)
Definition count_of (key : string) (page_transitions : dict string Z) : Z :=
  match dict_get String.eqb key page_transitions with
  | Some c => c
  | None => 0%Z
  end.

(** [page_transitions[key] += 1] on a [defaultdict(int)]. *)
Definition increment (key : string) (page_transitions : dict string Z)
    : dict string Z :=
  dict_set String.eqb key (count_of key page_transitions + 1)%Z
    page_transitions.

(** [if previous_page:] *)
Definition truthy (previous_page : option string) : bool :=
  match previous_page with
  | Some s => negb (String.eqb s "")
  | None => false
  end.

Definition track_page_transition (current_page : string)
    (session : dict string string) (page_transitions : dict string Z)
    : dict string string * dict string Z :=
  let previous_page := dict_get String.eqb "previous_page"%string session in
  let page_transitions :=
    match previous_page with
    | Some p =>
        if truthy previous_page
        then increment (p ++ " -> " ++ current_page)%string page_transitions
        else page_transitions
    | None => page_transitions
    end in
  (dict_set String.eqb "previous_page"%string current_page session,
   page_transitions).

(** What a handler returns. *)
Inductive response (F : Type) : Type :=
| Rendered (title content : string)
| Body (html : string) (status : Z)
| StatsTable (rows : list (string * Z * F)) (total_transitions : Z).

Arguments Rendered {F} title content.
Arguments Body {F} html status.
Arguments StatsTable {F} rows total_transitions.

Definition subject1_title : string := "Smart Home Automation App - ECOM".
Definition subject2_title : string := "Hospital Network Deployment - AKAT".

Section Handlers.

Context {F : Type} {num : Numeric F} {pyn : PyNumber F}.

Definition home (session : dict string string)
    (page_transitions : dict string Z)
    : response F * dict string string * dict string Z :=
  let '(session, page_transitions) :=
    track_page_transition "Home" session page_transitions in
  (Rendered "Home" "Welcome to the homepage.", session, page_transitions).

Definition subject1 (session : dict string string)
    (page_transitions : dict string Z)
    : response F * dict string string * dict string Z :=
  let '(session, page_transitions) :=
    track_page_transition subject1_title session page_transitions in
  (Rendered subject1_title
     "The ECOM Smart Home Automation App provides seamless integration of IoT devices, enabling users to remotely control lighting, security systems, and energy consumption through an intuitive mobile application. It ensures encrypted communication and AI-powered automation for an optimized living experience.",
   session, page_transitions).

Definition subject2 (session : dict string string)
    (page_transitions : dict string Z)
    : response F * dict string string * dict string Z :=
  let '(session, page_transitions) :=
    track_page_transition subject2_title session page_transitions in
  (Rendered subject2_title
     "The AKAT Hospital Network Deployment project focuses on building a secure and scalable IT infrastructure for healthcare facilities. It includes high-speed networking, real-time patient data synchronization, cybersecurity measures, and seamless integration with existing hospital management systems.",
   session, page_transitions).

Definition quit_page (session : dict string string)
    (page_transitions : dict string Z)
    : response F * dict string string * dict string Z :=
  let '(session, page_transitions) :=
    track_page_transition "Quit" session page_transitions in
  (Body "<h1>Goodbye!</h1><p>You have exited the application.</p>" 200,
   session, page_transitions).

(** [sum(page_transitions.values())] *)
Definition total_of (page_transitions : dict string Z) : Z :=
  fold_left Z.add (values page_transitions) 0%Z.

(** [count / total_transitions * 100 if total_transitions > 0 else 0] *)
Definition percentage_of (count total_transitions : Z) : F :=
  if (0 <? total_transitions)%Z
  then fmul (fdiv (of_int count) (of_int total_transitions)) (of_int 100)
  else of_int 0.

Definition stats (session : dict string string)
    (page_transitions : dict string Z)
    : response F * dict string string * dict string Z :=
  let total_transitions := total_of page_transitions in
  let rows :=
    map (fun item =>
           let '(transition, count) := item in
           (transition, count, percentage_of count total_transitions))
      page_transitions in
  (StatsTable rows total_transitions, session, page_transitions).

(** The routes of the application. *)
Inductive route : Type := Home | Subject1 | Subject2 | Quit | Stats.

Definition handle (r : route)
    : dict string string -> dict string Z ->
      response F * dict string string * dict string Z :=
  match r with
  | Home => home
  | Subject1 => subject1
  | Subject2 => subject2
  | Quit => quit_page
  | Stats => stats
  end.

(** The page a route records, if it records one. *)
Definition tracked_page (r : route) : option string :=
  match r with
  | Home => Some "Home"
  | Subject1 => Some subject1_title
  | Subject2 => Some subject2_title
  | Quit => Some "Quit"
  | Stats => None
  end.

Definition is_tracked (r : route) : bool :=
  match tracked_page r with Some _ => true | None => false end.

(** The titles of the pages that are recorded. *)
Definition titles : list string :=
  ["Home"; subject1_title; subject2_title; "Quit"].

(** Every transition between two recorded pages, as the table names it. *)
Definition all_transitions : list string :=
  flat_map (fun p => map (fun q => p ++ " -> " ++ q) titles) titles.

(** The server between requests: the table, and the session each browser
    holds (a browser that has not come yet holds the empty session). *)
Record server : Type := {
  page_transitions : dict string Z;
  sessions : dict nat (dict string string)
}.

Definition session_of (browser : nat) (s : server) : dict string string :=
  match dict_get Nat.eqb browser (sessions s) with
  | Some session => session
  | None => []
  end.

(** The previous page a browser's session holds. *)
Definition previous_of (s : server) (browser : nat) : option string :=
  dict_get String.eqb "previous_page" (session_of browser s).

(** One request of a browser. *)
Definition serve (s : server) (request : nat * route) : server :=
  let '(browser, r) := request in
  let '(_, session, table) :=
    handle r (session_of browser s) (page_transitions s) in
  {| page_transitions := table;
     sessions := dict_set Nat.eqb browser session (sessions s) |}.

(** The server as the process starts. *)
Definition start : server := {| page_transitions := []; sessions := [] |}.

Definition run (requests : list (nat * route)) : server :=
  fold_left serve requests start.

(** The browsers whose session holds a previous page. *)
Definition returning (s : server) : list nat :=
  filter (fun browser => truthy (previous_of s browser))
    (keys (sessions s)).

End Handlers.

End Website.

(** * Properties *)

Unset Implicit Arguments.

(** ** Lists: prefixes of sorted lists *)

Section SortedPrefix.

Context {A : Type} (R : A -> A -> Prop).

Lemma StronglySorted_app_cross (l1 l2 : list A) :
  StronglySorted R (l1 ++ l2) ->
  forall a b, In a l1 -> In b l2 -> R a b.
Proof.
  induction l1 as [|x l1 IH]; simpl; intros Hs a b Ha Hb; [contradiction|].
  apply StronglySorted_inv in Hs as [Hs Hx].
  destruct Ha as [<-|Ha].
  - rewrite Forall_forall in Hx. apply Hx, in_or_app. now right.
  - now apply IH.
Qed.

Lemma StronglySorted_app_l (l1 l2 : list A) :
  StronglySorted R (l1 ++ l2) -> StronglySorted R l1.
Proof.
  induction l1 as [|x l1 IH]; simpl; intros Hs; [constructor|].
  apply StronglySorted_inv in Hs as [Hs Hx].
  constructor; [now apply IH|].
  apply Forall_app in Hx. tauto.
Qed.

Lemma StronglySorted_firstn (n : nat) (l : list A) :
  StronglySorted R l -> StronglySorted R (firstn n l).
Proof.
  intros Hs. rewrite <- (firstn_skipn n l) in Hs.
  now apply StronglySorted_app_l in Hs.
Qed.

End SortedPrefix.

Lemma NoDup_firstn_of {A} (n : nat) (l : list A) :
  NoDup l -> NoDup (firstn n l).
Proof.
  intros Hn. rewrite <- (firstn_skipn n l) in Hn.
  now apply NoDup_app_remove_r in Hn.
Qed.

Lemma In_firstn_of {A} (n : nat) (l : list A) (a : A) :
  In a (firstn n l) -> In a l.
Proof.
  intros Hin. rewrite <- (firstn_skipn n l). apply in_or_app. now left.
Qed.

(** ** kbest.py: [compute_similarity] and [find_best_cells] *)

Section KbestFacts.

Context {F : Type} {num : Numeric F}.
Variable argsort : list F -> list nat.

Lemma compute_similarity_matching (reference_vectors : ndarray2 F)
    (mp_vector : list F) :
  shape1 reference_vectors = List.length mp_vector ->
  compute_similarity reference_vectors mp_vector
  = ([], Returns
           (map (fun r => fsqrt (np_sum (map square (vec_sub r mp_vector))))
                    (rows reference_vectors))).
Proof.
  intros Hdim. unfold compute_similarity.
  apply Nat.eqb_eq in Hdim. rewrite Hdim. simpl.
  now rewrite !map_map.
Qed.

Lemma take_at_in_range {A} (d : A) (v : list A) (indices : list nat) :
  Forall (fun i => i < List.length v) indices ->
  take_at v indices = ([], Returns (map (fun i => nth i v d) indices)).
Proof.
  induction 1 as [|i rest Hi _ IH]; simpl; [reflexivity|].
  destruct (nth_error v i) as [a|] eqn:E.
  - rewrite IH. simpl. unfold ret. do 3 f_equal.
    symmetry. now apply nth_error_nth.
  - apply nth_error_None in E. lia.
Qed.

Lemma sorts_in_range (v : list F) (p : list nat) :
  sorts v p -> Forall (fun i => i < List.length v) p.
Proof.
  intros [Hp _]. apply Forall_forall. intros i Hi.
  apply (Permutation_in _ Hp), in_seq in Hi. lia.
Qed.

Lemma sorts_length (v : list F) (p : list nat) :
  sorts v p -> List.length p = List.length v.
Proof.
  intros [Hp _]. apply Permutation_length in Hp. now rewrite length_seq in Hp.
Qed.

Lemma sorts_NoDup (v : list F) (p : list nat) : sorts v p -> NoDup p.
Proof.
  intros [Hp _]. apply (Permutation_NoDup (Permutation_sym Hp)), seq_NoDup.
Qed.

(** What [find_best_cells] does once the distances are there: the first
    [k] indices of the sorted order, and the distances at them. *)
Lemma find_best_cells_selects (reference_vectors : ndarray2 F)
    (mp_vector : list F) (k : Z) (metrics : list F) :
  (0 < k)%Z ->
  shape1 reference_vectors = List.length mp_vector ->
  0 < shape0 reference_vectors ->
  outcome_of (compute_similarity reference_vectors mp_vector)
  = Returns metrics ->
  sorts metrics (argsort metrics) ->
  find_best_cells argsort reference_vectors mp_vector k
  = ([], Returns (firstn (Z.to_nat k) (argsort metrics),
                  map (at_ metrics) (firstn (Z.to_nat k) (argsort metrics)))).
Proof.
  intros Hk Hdim Hn Hm Hs. unfold find_best_cells.
  apply Z.ltb_lt in Hk. rewrite Hk. simpl.
  rewrite (compute_similarity_matching _ _ Hdim) in Hm |- *.
  simpl in Hm. injection Hm as Hm. rewrite Hm. simpl.
  assert (Hlen : (0 <? List.length metrics)%nat = true).
  { apply Nat.ltb_lt. rewrite <- Hm, length_map. exact Hn. }
  rewrite Hlen. simpl.
  rewrite (take_at_in_range fzero).
  - reflexivity.
  - apply sorts_in_range in Hs. rewrite Forall_forall in *.
    intros i Hi. apply Hs. eapply In_firstn_of, Hi.
Qed.

Lemma at_in_range (v : list F) (p : list nat) :
  Forall (fun i => i < List.length v) p ->
  Forall2 (fun i d => nth_error v i = Some d) p (map (at_ v) p).
Proof.
  induction 1 as [|i q Hi _ IH]; simpl; constructor; [|exact IH].
  now apply nth_error_nth'.
Qed.

End KbestFacts.

(** ** The two insertion sorts keep [np.argsort]'s promise *)

Section ArgsortFacts.

Context {F : Type} {num : Numeric F} {swo : StrictWeakOrder F}.

Variable v : list F.

(** Index [i] may stand before index [j]. *)
Let before (i j : nat) : Prop := flt (at_ v j) (at_ v i) = false.

Lemma flt_trans (x y z : F) :
  flt x y = true -> flt y z = true -> flt x z = true.
Proof.
  intros Hxy Hyz. destruct (flt x z) eqn:Hxz; [reflexivity|].
  pose proof (flt_negtrans _ _ _ Hxz (flt_asym _ _ Hyz)) as H.
  congruence.
Qed.

Lemma flt_irrefl (x : F) : flt x x = false.
Proof.
  destruct (flt x x) eqn:E; [|reflexivity].
  now rewrite (flt_asym _ _ E) in E.
Qed.

Lemma insert_behind_perm (i : nat) (p : list nat) :
  Permutation (insert_behind v i p) (i :: p).
Proof.
  induction p as [|j q IH]; simpl; [reflexivity|].
  destruct (flt (at_ v i) (at_ v j)); [reflexivity|].
  rewrite IH. apply perm_swap.
Qed.

Lemma insert_in_front_perm (i : nat) (p : list nat) :
  Permutation (insert_in_front v i p) (i :: p).
Proof.
  induction p as [|j q IH]; simpl; [reflexivity|].
  destruct (flt (at_ v j) (at_ v i)); [|reflexivity].
  rewrite IH. apply perm_swap.
Qed.

Lemma insert_behind_sorted (i : nat) (p : list nat) :
  StronglySorted before p -> StronglySorted before (insert_behind v i p).
Proof.
  induction 1 as [|j q Hq IH Hj]; simpl.
  - repeat constructor.
  - destruct (flt (at_ v i) (at_ v j)) eqn:E.
    + constructor; [now constructor|].
      constructor; [exact (flt_asym _ _ E)|].
      rewrite Forall_forall in *. intros z Hz. unfold before.
      destruct (flt (at_ v z) (at_ v i)) eqn:Ez; [|reflexivity].
      pose proof (flt_trans _ _ _ Ez E) as Hzj.
      specialize (Hj z Hz). unfold before in Hj. congruence.
    + constructor; [exact IH|].
      rewrite Forall_forall in *. intros z Hz.
      apply (Permutation_in _ (insert_behind_perm i q)) in Hz.
      destruct Hz as [<-|Hz]; [exact E|now apply Hj].
Qed.

Lemma insert_in_front_sorted (i : nat) (p : list nat) :
  StronglySorted before p -> StronglySorted before (insert_in_front v i p).
Proof.
  induction 1 as [|j q Hq IH Hj]; simpl.
  - repeat constructor.
  - destruct (flt (at_ v j) (at_ v i)) eqn:E.
    + constructor; [exact IH|].
      rewrite Forall_forall in *. intros z Hz.
      apply (Permutation_in _ (insert_in_front_perm i q)) in Hz.
      destruct Hz as [<-|Hz]; [exact (flt_asym _ _ E)|now apply Hj].
    + constructor; [now constructor|].
      constructor; [exact E|].
      rewrite Forall_forall in *. intros z Hz.
      exact (flt_negtrans _ _ _ (Hj z Hz) E).
Qed.

Lemma fold_insert_sorts (insert : nat -> list nat -> list nat) :
  (forall i p, Permutation (insert i p) (i :: p)) ->
  (forall i p, StronglySorted before p -> StronglySorted before (insert i p)) ->
  forall todo acc,
    StronglySorted before acc ->
    Permutation (fold_left (fun p i => insert i p) todo acc) (todo ++ acc) /\
    StronglySorted before (fold_left (fun p i => insert i p) todo acc).
Proof.
  intros Hperm Hsorted. induction todo as [|i todo IH]; simpl; intros acc Hacc.
  - split; [reflexivity|exact Hacc].
  - destruct (IH (insert i acc) (Hsorted _ _ Hacc)) as [Hp Hs].
    split; [|exact Hs].
    rewrite Hp, Hperm. symmetry. apply Permutation_middle.
Qed.

Lemma before_ascending (p : list nat) :
  StronglySorted before p -> ascending (map (at_ v) p).
Proof.
  induction 1 as [|j q Hq IH Hj]; simpl; constructor; [exact IH|].
  apply Forall_map. exact Hj.
Qed.

Lemma argsort_stable_sorts : sorts v (argsort_stable v).
Proof.
  destruct (fold_insert_sorts (insert_behind v) insert_behind_perm
              insert_behind_sorted (seq 0 (List.length v)) [])
    as [Hp Hs]; [constructor|].
  split; [|now apply before_ascending].
  now rewrite app_nil_r in Hp.
Qed.

Lemma argsort_reversing_ties_sorts : sorts v (argsort_reversing_ties v).
Proof.
  destruct (fold_insert_sorts (insert_in_front v) insert_in_front_perm
              insert_in_front_sorted (seq 0 (List.length v)) [])
    as [Hp Hs]; [constructor|].
  split; [|now apply before_ascending].
  now rewrite app_nil_r in Hp.
Qed.

End ArgsortFacts.

(** The real numbers are ordered as [np.argsort] needs. *)
#[export] Instance R_order : StrictWeakOrder R.
Proof.
  split; simpl; intros x y.
  - destruct (Rlt_dec x y), (Rlt_dec y x); intros; try reflexivity;
      try discriminate; lra.
  - intros z. destruct (Rlt_dec x y), (Rlt_dec y z), (Rlt_dec x z); intros;
      try reflexivity; try discriminate; lra.
Qed.

(** binary64 numbers, NaN last, are ordered as [np.argsort] needs. *)

Lemma sf_less_key (a b : spec_float) :
  sf_less a b = true <-> key_lt (sf_key a) (sf_key b).
Proof.
  unfold sf_less, sf_is_nan, SFltb, SFeqb.
  destruct a as [[]|[]| |[] m1 e1], b as [[]|[]| |[] m2 e2]; simpl;
    rewrite ?Z.compare_refl, ?Pos.compare_cont_refl; simpl;
    try (split; [discriminate|lia]);
    try (split; [lia|reflexivity]).
  all: change (Pos.compare_cont Eq m1 m2) with (Pos.compare m1 m2).
  all: destruct (Z.compare_spec e1 e2); destruct (Pos.compare_spec m1 m2);
    simpl;
    try (split; [discriminate|lia]);
    try (split; [lia|reflexivity]).
Qed.

Lemma np_float_less_sf (a b : float) :
  np_float_less a b = sf_less (Prim2SF a) (Prim2SF b).
Proof.
  unfold np_float_less, sf_less, sf_is_nan, is_nan.
  now rewrite FloatAxioms.ltb_spec, !FloatAxioms.eqb_spec.
Qed.

#[export] Instance binary64_order : StrictWeakOrder float.
Proof.
  split; simpl; intros x y.
  - rewrite !np_float_less_sf. intros H. apply sf_less_key in H.
    destruct (sf_less (Prim2SF y) (Prim2SF x)) eqn:E; [|reflexivity].
    apply sf_less_key in E.
    destruct (sf_key (Prim2SF x)) as [[? ?] ?],
      (sf_key (Prim2SF y)) as [[? ?] ?].
    simpl in *. lia.
  - intros z. rewrite !np_float_less_sf. intros H1 H2.
    destruct (sf_less (Prim2SF x) (Prim2SF z)) eqn:E; [|reflexivity].
    apply sf_less_key in E.
    assert (N1 : ~ key_lt (sf_key (Prim2SF x)) (sf_key (Prim2SF y))).
    { intros K. apply sf_less_key in K. congruence. }
    assert (N2 : ~ key_lt (sf_key (Prim2SF y)) (sf_key (Prim2SF z))).
    { intros K. apply sf_less_key in K. congruence. }
    destruct (sf_key (Prim2SF x)) as [[? ?] ?],
      (sf_key (Prim2SF y)) as [[? ?] ?], (sf_key (Prim2SF z)) as [[? ?] ?].
    simpl in *. lia.
Qed.

(** ** What [compute_similarity] and [find_best_cells] return *)

Section KbestResults.

Context {F : Type} {num : Numeric F}.
Variable argsort : list F -> list nat.


(** C10, as the code has it.  When the dimensions agree, the catalogue is
    not empty and [k] exceeds its size [n], [find_best_cells] prints
    nothing and returns all [n] indices, in [np.argsort]'s order, with
    their distances ascending. *)
Theorem find_best_cells_clamps (reference_vectors : ndarray2 F)
    (mp_vector : list F) (k : Z) (metrics : list F) :
  shape1 reference_vectors = List.length mp_vector ->
  0 < shape0 reference_vectors ->
  (Z.of_nat (shape0 reference_vectors) < k)%Z ->
  outcome_of (compute_similarity reference_vectors mp_vector)
  = Returns metrics ->
  sorts metrics (argsort metrics) ->
  exists best_indices best_metrics,
    find_best_cells argsort reference_vectors mp_vector k
    = ([], Returns (best_indices, best_metrics)) /\
    Permutation best_indices (seq 0 (shape0 reference_vectors)) /\
    Forall2 (fun i d => nth_error metrics i = Some d)
      best_indices best_metrics /\
    ascending best_metrics.
Proof.
  intros Hdim Hn Hk Hm Hs.
  assert (Hlen : List.length metrics = shape0 reference_vectors).
  { rewrite (compute_similarity_matching _ _ Hdim) in Hm. simpl in Hm.
    injection Hm as <-. apply length_map. }
  pose proof (sorts_length _ _ Hs) as Hplen.
  assert (Hall : firstn (Z.to_nat k) (argsort metrics) = argsort metrics).
  { apply firstn_all2. lia. }
  exists (argsort metrics), (map (at_ metrics) (argsort metrics)).
  split; [|split; [|split]].
  - rewrite <- Hall at 1 2.
    apply find_best_cells_selects; try assumption; lia.
  - rewrite <- Hlen. exact (proj1 Hs).
  - apply at_in_range, (sorts_in_range _ _ Hs).
  - exact (proj2 Hs).
Qed.

(** C6, as the code has it.  When the width of the reference vectors
    differs from the length of the measurement vector,
    [compute_similarity] raises nothing: it prints one line and returns
    the empty array. *)
Theorem compute_similarity_mismatch (reference_vectors : ndarray2 F)
    (mp_vector : list F) :
  shape1 reference_vectors <> List.length mp_vector ->
  compute_similarity reference_vectors mp_vector
  = ([Line "Error in compute_similarity: "
        (AssertionError
           "Dimension mismatch between reference vectors and mp_vector")],
     Returns []).
Proof.
  intros Hdim. unfold compute_similarity.
  apply Nat.eqb_neq in Hdim. now rewrite Hdim.
Qed.

End KbestResults.



(** The demonstration data, [k = 9] against five cells. *)
Lemma find_best_cells_clamps_witness :
  exists best_indices best_metrics,
    find_best_cells argsort_stable Demo.reference_vectors64
      Demo.mp_vector64 9
    = ([], Returns (best_indices, best_metrics)) /\
    Permutation best_indices (seq 0 (shape0 Demo.reference_vectors64)) /\
    Forall2 (fun i d => nth_error Inputs.metrics64 i = Some d)
      best_indices best_metrics /\
    ascending best_metrics.
Proof.
  apply (find_best_cells_clamps argsort_stable Demo.reference_vectors64
           Demo.mp_vector64 9 Inputs.metrics64).
  - reflexivity.
  - unfold shape0. simpl. lia.
  - unfold shape0. simpl. lia.
  - vm_compute. reflexivity.
  - apply argsort_stable_sorts.
Defined.

(** C10 as stated, for every catalogue: on a catalogue with no entry
    [find_best_cells] fails its assertion on the distances and prints the
    error line. *)
Lemma find_best_cells_empty_catalogue_fails :
  ~ (forall argsort : list float -> list nat,
        (forall v, sorts v (argsort v)) ->
        forall (reference_vectors : ndarray2 float) (mp_vector : list float)
               (k : Z),
          shape1 reference_vectors = List.length mp_vector ->
          (Z.of_nat (shape0 reference_vectors) < k)%Z ->
          exists best_indices best_metrics,
            find_best_cells argsort reference_vectors mp_vector k
            = ([], Returns (best_indices, best_metrics)) /\
            Permutation best_indices (seq 0 (shape0 reference_vectors)) /\
            ascending best_metrics).
Proof.
  intros stated.
  destruct (stated argsort_stable argsort_stable_sorts
              Inputs.empty_catalogue Demo.mp_vector64 1%Z
              eq_refl eq_refl) as (idx & dist & Hrun & _).
  vm_compute in Hrun. discriminate Hrun.
Qed.

(** Reference vectors of width 3, a measurement vector of width 2. *)
Lemma compute_similarity_mismatch_witness :
  compute_similarity Demo.reference_vectors64 Inputs.short_vector
  = ([Line "Error in compute_similarity: "
        (AssertionError
           "Dimension mismatch between reference vectors and mp_vector")],
     Returns []).
Proof.
  apply (compute_similarity_mismatch Demo.reference_vectors64
           Inputs.short_vector).
  simpl. lia.
Defined.

(** C6 as stated: a mismatch of dimensions does not make
    [compute_similarity] raise. *)
Lemma compute_similarity_mismatch_not_raised :
  ~ (forall (reference_vectors : ndarray2 float) (mp_vector : list float),
        shape1 reference_vectors <> List.length mp_vector ->
        exists e,
          outcome_of (compute_similarity reference_vectors mp_vector)
          = Raises e).
Proof.
  intros stated.
  destruct (stated Demo.reference_vectors64 Inputs.short_vector) as [e He].
  - simpl. lia.
  - vm_compute in He. discriminate He.
Qed.

(** ** What [trilaterate] returns *)

Section TrilaterateResults.

Context {F : Type} {num : Numeric F}.
Variable minimize :
  (list F -> error_value F) -> list F -> outcome (OptimizeResult F).

(** C7, as the code has it.  With fewer than three access points
    [trilaterate] raises nothing: its [except AssertionError] branch
    prints one line and the call returns [None], without a default
    position in its place. *)
Theorem trilaterate_too_few_access_points
    (access_points : list (AccessPoint F)) :
  List.length access_points < 3 ->
  trilaterate minimize access_points
  = ([Line "Input error in trilaterate: "
        (AssertionError
           "At least 3 access points are required for trilateration")],
     Returns None).
Proof.
  intros Hlen. unfold trilaterate.
  assert (E : (3 <=? List.length access_points)%nat = false)
    by (apply Nat.leb_gt; exact Hlen).
  now rewrite E.
Qed.


End TrilaterateResults.

(** Two access points. *)
Lemma trilaterate_too_few_access_points_witness :
  trilaterate (Anchors.minimize_reporting true) Anchors.two_access_points
  = ([Line "Input error in trilaterate: "
        (AssertionError
           "At least 3 access points are required for trilateration")],
     Returns None).
Proof.
  apply (trilaterate_too_few_access_points (Anchors.minimize_reporting true)
           Anchors.two_access_points).
  simpl. lia.
Defined.

(** C7 as stated: two access points do not make [trilaterate] raise. *)
Lemma trilaterate_too_few_not_raised :
  ~ (forall (minimize : (list float -> error_value float) -> list float ->
                        outcome (OptimizeResult float))
            (access_points : list (AccessPoint float)),
        List.length access_points < 3 ->
        exists e,
          outcome_of (trilaterate minimize access_points) = Raises e).
Proof.
  intros stated.
  destruct (stated (Anchors.minimize_reporting true)
              Anchors.two_access_points) as [e He].
  - simpl. lia.
  - vm_compute in He. discriminate He.
Qed.



(** ** Rounding-free arithmetic: sums *)

Section ExactSums.

Local Open Scope R_scope.

Lemma fold_left_Rplus (l : list R) (acc : R) :
  fold_left Rplus l acc = acc + Rsum l.
Proof.
  revert acc. induction l as [|a l IH]; simpl; intros acc.
  - lra.
  - rewrite IH. lra.
Qed.

Lemma np_sum_Rsum (l : list R) : np_sum l = Rsum l.
Proof. unfold np_sum. simpl. rewrite fold_left_Rplus. lra. Qed.

Lemma Rsum_nonneg (l : list R) : Forall (fun a => 0 <= a) l -> 0 <= Rsum l.
Proof.
  induction 1 as [|a l Ha _ IH]; simpl; lra.
Qed.

Lemma Rsum_zero (l : list R) :
  Forall (fun a => 0 <= a) l -> Rsum l = 0 -> Forall (fun a => a = 0) l.
Proof.
  induction 1 as [|a l Ha Hl IH]; simpl; intros Hs; constructor.
  - pose proof (Rsum_nonneg l Hl). lra.
  - apply IH. pose proof (Rsum_nonneg l Hl). lra.
Qed.

Lemma Rsum_pos (l : list R) :
  l <> [] -> Forall (fun a => 0 < a) l -> 0 < Rsum l.
Proof.
  intros Hne Hl. destruct Hl as [|a l Ha Hl]; [congruence|]. simpl.
  assert (0 <= Rsum l); [|lra].
  apply Rsum_nonneg. eapply Forall_impl; [|exact Hl]. simpl. intros; lra.
Qed.

Lemma Rsum_scaled (l : list R) (s : R) :
  Rsum (map (fun w => w / s) l) = Rsum l / s.
Proof.
  induction l as [|a l IH]; simpl.
  - unfold Rdiv. lra.
  - rewrite IH. unfold Rdiv. lra.
Qed.

End ExactSums.

(** ** [calculate_error] is the residual objective *)

Section Residual.

Local Open Scope R_scope.

Lemma accumulate_residual (x y z : R) (access_points : list (AccessPoint R))
    (error : R) :
  fold_left (accumulate x y z) access_points error
  = error + residual x y z access_points.
Proof.
  revert error. unfold residual.
  induction access_points as [|ap aps IH]; simpl; intros error.
  - lra.
  - rewrite IH. unfold accumulate, euclidean_distance, square. simpl.
    replace ((x - ap_x ap) * ((x - ap_x ap) * 1) +
             (y - ap_y ap) * ((y - ap_y ap) * 1) +
             (z - ap_z ap) * ((z - ap_z ap) * 1))
      with ((x - ap_x ap) * (x - ap_x ap) + (y - ap_y ap) * (y - ap_y ap) +
            (z - ap_z ap) * (z - ap_z ap)) by ring.
    ring.
Qed.


End Residual.

(** ** The weights of [compute_barycentric_position] *)

Section Weights.

Local Open Scope R_scope.

Lemma vec_add_length (u v : list R) :
  List.length u = List.length v ->
  List.length (vec_add u v) = List.length u.
Proof.
  intros H. unfold vec_add. rewrite length_map, length_combine. lia.
Qed.

Lemma vec_add_nth (u v : list R) (j : nat) :
  List.length u = List.length v ->
  nth j (vec_add u v) 0 = nth j u 0 + nth j v 0.
Proof.
  revert v j. induction u as [|a u IH]; intros [|b v] j H; simpl in *;
    try discriminate.
  - destruct j; lra.
  - destruct j; [reflexivity|]. apply IH. lia.
Qed.

Lemma np_sum_axis0_fold (width : nat) (a : list (list R)) (acc : list R) :
  Forall (fun r => List.length r = width) a ->
  List.length acc = width ->
  List.length (fold_left vec_add a acc) = width /\
  forall j, nth j (fold_left vec_add a acc) 0
            = nth j acc 0 + Rsum (map (fun r => nth j r 0) a).
Proof.
  intros Ha. revert acc. induction Ha as [|r a Hr _ IH]; simpl; intros acc Hacc.
  - split; [exact Hacc|]. intros j. lra.
  - destruct (IH (vec_add acc r)) as [Hl Hn].
    { rewrite vec_add_length; lia. }
    split; [exact Hl|]. intros j.
    rewrite Hn, vec_add_nth by lia. lra.
Qed.

Lemma nth_repeat_zero (width j : nat) : nth j (repeat 0 width) 0 = 0.
Proof.
  revert j. induction width as [|w IH]; intros [|j]; simpl; auto.
Qed.

Lemma scale_row_nth (row : list R) (w : R) (j : nat) :
  nth j (scale_row row w) 0 = w * nth j row 0.
Proof.
  unfold scale_row. simpl.
  replace 0 with (0 * w) at 1 by lra.
  rewrite (map_nth (fun c => c * w)). lra.
Qed.

(** The code's row-by-row accumulation is the weighted sum. *)
Lemma np_sum_axis0_weighted (width : nat) (selected : list (list R))
    (weights : list R) :
  Forall (fun r => List.length r = width) selected ->
  List.length selected = List.length weights ->
  np_sum_axis0 width
    (map (fun p => scale_row (fst p) (snd p)) (combine selected weights))
  = weighted_sum width weights selected.
Proof.
  intros Hsel Hlen. unfold np_sum_axis0.
  destruct (np_sum_axis0_fold width
              (map (fun p => scale_row (fst p) (snd p))
                 (combine selected weights)) (repeat fzero width))
    as [Hl Hn].
  { apply Forall_map, Forall_forall. intros [row w] Hin. simpl.
    unfold scale_row. rewrite length_map.
    apply in_combine_l in Hin. rewrite Forall_forall in Hsel. now apply Hsel. }
  { apply repeat_length. }
  apply (nth_ext _ _ 0 0).
  - unfold weighted_sum. now rewrite Hl, length_map, length_seq.
  - intros j Hj. rewrite Hl in Hj. rewrite Hn. simpl.
    rewrite nth_repeat_zero. unfold weighted_sum.
    rewrite (nth_indep _ 0 (weighted_coordinate weights selected 0))
      by (rewrite length_map, length_seq; exact Hj).
    rewrite (map_nth (weighted_coordinate weights selected)), seq_nth
      by exact Hj.
    simpl. unfold weighted_coordinate. rewrite Rplus_0_l. f_equal.
    clear Hl Hn Hsel. revert weights Hlen.
    induction selected as [|row sel IH]; intros [|w ws] Hlen; simpl in *;
      try discriminate; [reflexivity|].
    rewrite scale_row_nth. f_equal. apply IH. lia.
Qed.

Lemma normalized_weights_length (metrics : list R) :
  List.length (normalized_weights metrics) = List.length metrics.
Proof. unfold normalized_weights. now rewrite !length_map. Qed.

Lemma inverse_weights_positive (metrics : list R) :
  Forall (fun d => 0 < d) metrics ->
  Forall (fun w => 0 < w) (map (fun m => fdiv fone m) metrics).
Proof.
  intros H. apply Forall_map. eapply Forall_impl; [|exact H].
  intros d Hd. simpl. unfold Rdiv. rewrite Rmult_1_l.
  now apply Rinv_0_lt_compat.
Qed.

Lemma normalized_weights_positive (metrics : list R) :
  metrics <> [] ->
  Forall (fun d => 0 < d) metrics ->
  Forall (fun w => 0 < w) (normalized_weights metrics).
Proof.
  intros Hne Hpos. unfold normalized_weights.
  pose proof (inverse_weights_positive metrics Hpos) as Hw.
  assert (Hs : 0 < np_sum (map (fun m => fdiv fone m) metrics)).
  { rewrite np_sum_Rsum. apply Rsum_pos; [|exact Hw].
    destruct metrics; [congruence|discriminate]. }
  apply Forall_map. eapply Forall_impl; [|exact Hw].
  intros w Hw0. simpl. now apply Rdiv_lt_0_compat.
Qed.

Lemma normalized_weights_sum (metrics : list R) :
  metrics <> [] ->
  Forall (fun d => 0 < d) metrics ->
  np_sum (normalized_weights metrics) = 1.
Proof.
  intros Hne Hpos. unfold normalized_weights.
  pose proof (inverse_weights_positive metrics Hpos) as Hw.
  assert (Hs : 0 < np_sum (map (fun m => fdiv fone m) metrics)).
  { rewrite np_sum_Rsum. apply Rsum_pos; [|exact Hw].
    destruct metrics; [congruence|discriminate]. }
  rewrite np_sum_Rsum. simpl fdiv.
  rewrite (Rsum_scaled _ (np_sum (map (fun m => 1 / m) metrics))).
  rewrite <- np_sum_Rsum. simpl in Hs. field. lra.
Qed.

Lemma compute_barycentric_position_weighted (cell_positions : ndarray2 R)
    (best_indices : list nat) (metrics : list R) :
  List.length best_indices = List.length metrics ->
  Forall (fun i => (i < shape0 cell_positions)%nat) best_indices ->
  rectangular cell_positions ->
  compute_barycentric_position cell_positions best_indices metrics
  = ([], Returns (Position
       (weighted_sum (shape1 cell_positions) (normalized_weights metrics)
          (map (fun i => nth i (rows cell_positions) []) best_indices)))).
Proof.
  intros Hlen Hidx Hrect. unfold compute_barycentric_position.
  apply Nat.eqb_eq in Hlen as Hlenb. rewrite Hlenb. simpl.
  rewrite (take_at_in_range [] _ _ Hidx). simpl.
  rewrite np_sum_axis0_weighted; [reflexivity| |].
  - apply Forall_map. unfold rectangular in Hrect.
    rewrite Forall_forall in *. intros i Hi.
    apply Hrect, nth_In, Hidx, Hi.
  - now rewrite length_map, normalized_weights_length.
Qed.


End Weights.


(** ** The demonstration of kbest.py *)

Section SortedUnique.

Context {F : Type} {num : Numeric F}.
Variable v : list F.

Lemma ascending_indices (p : list nat) :
  ascending (map (at_ v) p) ->
  StronglySorted (fun i j => flt (at_ v j) (at_ v i) = false) p.
Proof.
  induction p as [|i p IH]; simpl; intros Hs; [constructor|].
  apply StronglySorted_inv in Hs as [Hs Hi].
  constructor; [now apply IH|].
  now rewrite Forall_map in Hi.
Qed.

(** Where the values are pairwise distinct there is one sorted order. *)
Lemma sorted_order_unique (p q : list nat) :
  Permutation p q ->
  StronglySorted (fun i j => flt (at_ v j) (at_ v i) = false) p ->
  StronglySorted (fun i j => flt (at_ v i) (at_ v j) = true) q ->
  p = q.
Proof.
  revert p. induction q as [|x q IH]; intros p Hperm Hp Hq.
  - now apply Permutation_sym, Permutation_nil in Hperm.
  - destruct p as [|y p].
    { now apply Permutation_nil in Hperm. }
    apply StronglySorted_inv in Hp as [Hp Hy].
    apply StronglySorted_inv in Hq as [Hq Hx].
    rewrite Forall_forall in Hx, Hy.
    destruct (Nat.eq_dec y x) as [->|Hne].
    + f_equal. apply IH; [|exact Hp|exact Hq].
      now apply Permutation_cons_inv in Hperm.
    + exfalso.
      assert (Hxp : In x p).
      { assert (Hin : In x (y :: p))
          by (apply (Permutation_in _ (Permutation_sym Hperm)); now left).
        destruct Hin as [E|Hin]; [congruence|exact Hin]. }
      assert (Hyq : In y q).
      { assert (Hin : In y (x :: q))
          by (apply (Permutation_in _ Hperm); now left).
        destruct Hin as [E|Hin]; [congruence|exact Hin]. }
      specialize (Hx y Hyq). specialize (Hy x Hxp). simpl in *. congruence.
Qed.

End SortedUnique.

Section Demonstration.

Local Open Scope R_scope.

Lemma demo_metrics :
  compute_similarity Demo.reference_vectors Demo.mp_vector
  = ([], Returns [sqrt 12; sqrt 147; sqrt 192; sqrt 27; sqrt 972]).
Proof.
  rewrite compute_similarity_matching by reflexivity.
  unfold np_sum, square. simpl.
  repeat (f_equal; try lra).
Qed.

Lemma sqrt_increasing (a b : R) : 0 <= a < b -> sqrt a < sqrt b.
Proof. intros [Ha Hab]. apply sqrt_lt_1; lra. Qed.

Lemma flt_sqrt (a b : R) : 0 <= a < b -> flt (sqrt a) (sqrt b) = true.
Proof.
  intros H. simpl. destruct (Rlt_dec (sqrt a) (sqrt b)) as [_|N];
    [reflexivity|]. now apply sqrt_increasing in H.
Qed.

Lemma demo_order_strict :
  StronglySorted
    (fun i j =>
       flt (at_ [sqrt 12; sqrt 147; sqrt 192; sqrt 27; sqrt 972] i)
           (at_ [sqrt 12; sqrt 147; sqrt 192; sqrt 27; sqrt 972] j) = true)
    [0; 3; 1; 2; 4]%nat.
Proof.
  repeat (constructor; [|repeat constructor; unfold at_; cbn [nth];
                          apply flt_sqrt; lra]).
  constructor.
Qed.

Lemma demo_permutation :
  Permutation [0; 1; 2; 3; 4]%nat [0; 3; 1; 2; 4]%nat.
Proof.
  apply perm_skip. symmetry.
  change (Permutation (3 :: [1; 2; 4]) ([1; 2] ++ 3 :: [4]))%nat.
  apply Permutation_cons_app. reflexivity.
Qed.

(** With positive distances the estimate is a convex combination of the
    selected cell positions. *)
Lemma barycentre_in_convex_hull (cell_positions : ndarray2 R)
    (best_indices : list nat) (metrics : list R) :
  metrics <> [] ->
  List.length best_indices = List.length metrics ->
  Forall (fun d => 0 < d) metrics ->
  Forall (fun i => (i < shape0 cell_positions)%nat) best_indices ->
  rectangular cell_positions ->
  in_convex_hull
    (map (fun i => nth i (rows cell_positions) []) best_indices)
    (weighted_sum (shape1 cell_positions) (normalized_weights metrics)
       (map (fun i => nth i (rows cell_positions) []) best_indices)).
Proof.
  intros Hne Hlen Hpos Hidx Hrect.
  set (selected := map _ best_indices).
  assert (E : List.length
                (weighted_sum (shape1 cell_positions)
                   (normalized_weights metrics) selected)
              = shape1 cell_positions)
    by (unfold weighted_sum; now rewrite length_map, length_seq).
  split.
  - rewrite E. apply Forall_map. unfold rectangular in Hrect.
    rewrite Forall_forall in *. intros i Hi.
    apply Hrect, nth_In, Hidx, Hi.
  - exists (normalized_weights metrics).
    split; [|split; [|split]].
    + unfold selected. now rewrite normalized_weights_length, length_map.
    + pose proof (normalized_weights_positive metrics Hne Hpos) as Hw.
      eapply Forall_impl; [|exact Hw]. simpl. intros; lra.
    + rewrite <- np_sum_Rsum. now apply normalized_weights_sum.
    + now rewrite E.
Qed.


End Demonstration.


(** The same selection in binary64, with a stable [np.argsort]: the
    distances as the program prints them, and an estimate inside the unit
    square the four selected cells span. *)
Example demonstration_binary64 :
  find_best_cells argsort_stable Demo.reference_vectors64
    Demo.mp_vector64 4
  = ([], Returns ([0; 3; 1; 2],
                  [3.4641016151377544; 5.196152422706632;
                   12.124355652982141; 13.856406460551018]%float)) /\
  exists x y,
    compute_barycentric_position Demo.cell_positions64 [0; 3; 1; 2]
      [3.4641016151377544; 5.196152422706632;
       12.124355652982141; 13.856406460551018]%float
    = ([], Returns (Position [x; y])) /\
    (0 <? x)%float = true /\ (x <? 1)%float = true /\
    (0 <? y)%float = true /\ (y <? 1)%float = true.
Proof.
  split; [vm_compute; reflexivity|].
  eexists _, _. split; [vm_compute; reflexivity|].
  repeat split; vm_compute; reflexivity.
Qed.

(** ** binary64: a zero distance in [compute_barycentric_position] *)

Section ZeroDistance.

Lemma is_nan_spec (x : float) : is_nan x = true <-> Prim2SF x = S754_nan.
Proof.
  unfold is_nan. rewrite FloatAxioms.eqb_spec. unfold SFeqb.
  destruct (Prim2SF x) as [s|s| |s m e]; simpl.
  - split; discriminate.
  - destruct s; split; discriminate.
  - tauto.
  - rewrite Z.compare_refl, Pos.compare_cont_refl.
    destruct s; split; discriminate.
Qed.

Lemma is_zero_spec (x : float) :
  is_zero x = true -> exists s, Prim2SF x = S754_zero s.
Proof.
  unfold is_zero. rewrite FloatAxioms.eqb_spec.
  change (Prim2SF zero) with (S754_zero false). unfold SFeqb.
  destruct (Prim2SF x) as [s|s| |s m e]; simpl; try discriminate.
  - intros _. now exists s.
  - destruct s; discriminate.
  - destruct s; discriminate.
Qed.

Lemma inverse_of_zero (d : float) :
  is_zero d = true -> exists s, Prim2SF (one / d) = S754_infinity s.
Proof.
  intros H. destruct (is_zero_spec d H) as [s Hs].
  rewrite div_spec, Hs. exists s. destruct s; reflexivity.
Qed.

Lemma add_special (a b : float) :
  sf_special (Prim2SF a) = true \/ sf_special (Prim2SF b) = true ->
  sf_special (Prim2SF (a + b)) = true.
Proof.
  rewrite add_spec. unfold SF64add, SFadd.
  destruct (Prim2SF a) as [s|s| |s m e], (Prim2SF b) as [s'|s'| |s' m' e'];
    simpl; intros [H|H]; try discriminate; try reflexivity;
    destruct s, s'; reflexivity.
Qed.

Lemma sum_special (l : list float) (acc : float) :
  sf_special (Prim2SF acc) = true \/
  Exists (fun w => sf_special (Prim2SF w) = true) l ->
  sf_special (Prim2SF (fold_left add l acc)) = true.
Proof.
  revert acc. induction l as [|w l IH]; simpl; intros acc [H|H].
  - exact H.
  - inversion H.
  - apply IH. left. apply add_special. now left.
  - apply IH. apply Exists_cons in H as [H|H].
    + left. apply add_special. now right.
    + now right.
Qed.

Lemma div_infinity_special (w t : float) (s : bool) :
  Prim2SF w = S754_infinity s -> sf_special (Prim2SF t) = true ->
  is_nan (w / t) = true.
Proof.
  intros Hw Ht. apply is_nan_spec. rewrite div_spec, Hw.
  destruct (Prim2SF t) as [s'|s'| |s' m' e']; try discriminate; reflexivity.
Qed.

Lemma mul_nan (c w : float) : is_nan w = true -> is_nan (c * w) = true.
Proof.
  intros H. apply is_nan_spec in H. apply is_nan_spec.
  rewrite mul_spec, H. now destruct (Prim2SF c).
Qed.

Lemma add_nan (a b : float) :
  is_nan a = true \/ is_nan b = true -> is_nan (a + b) = true.
Proof.
  rewrite !is_nan_spec, add_spec.
  intros [H|H]; rewrite H; [reflexivity|now destruct (Prim2SF a)].
Qed.

Lemma vec_add_nan (u v : list float) :
  Forall (fun c => is_nan c = true) u \/ Forall (fun c => is_nan c = true) v ->
  Forall (fun c => is_nan c = true) (vec_add u v).
Proof.
  intros H. unfold vec_add. apply Forall_map, Forall_forall.
  intros [a b] Hin. simpl. apply add_nan.
  destruct H as [H|H]; rewrite Forall_forall in H.
  - left. apply H. eapply in_combine_l, Hin.
  - right. apply H. eapply in_combine_r, Hin.
Qed.

Lemma vec_add_length64 (u v : list float) :
  List.length u = List.length v ->
  List.length (vec_add u v) = List.length u.
Proof.
  intros H. unfold vec_add. rewrite length_map, length_combine. lia.
Qed.

Lemma np_sum_axis0_nan (width : nat) (a : list (list float))
    (acc : list float) :
  Forall (fun r => List.length r = width) a ->
  List.length acc = width ->
  Forall (fun c => is_nan c = true) acc \/
  Exists (Forall (fun c => is_nan c = true)) a ->
  List.length (fold_left vec_add a acc) = width /\
  Forall (fun c => is_nan c = true) (fold_left vec_add a acc).
Proof.
  intros Ha. revert acc.
  induction Ha as [|r a Hr _ IH]; simpl; intros acc Hacc H.
  - destruct H as [H|H]; [now split|inversion H].
  - apply IH.
    + rewrite vec_add_length64; lia.
    + destruct H as [H|H].
      * left. apply vec_add_nan. now left.
      * apply Exists_cons in H as [H|H].
        -- left. apply vec_add_nan. now right.
        -- now right.
Qed.

Lemma combine_In_r {A B} (l1 : list A) (l2 : list B) (b : B) :
  List.length l1 = List.length l2 -> In b l2 ->
  exists a, In (a, b) (combine l1 l2).
Proof.
  revert l2. induction l1 as [|a l1 IH]; intros [|b' l2] Hlen Hin;
    simpl in *; try discriminate; try contradiction.
  destruct Hin as [->|Hin].
  - exists a. now left.
  - destruct (IH l2) as [a' Ha']; [lia|exact Hin|]. exists a'. now right.
Qed.

(** C5, as the code has it.  When some selected distance is exactly zero
    (and the indices are as many as the distances, and inside the cell
    positions), [compute_barycentric_position] raises nothing and prints
    nothing, but it neither clamps the distance nor returns the matching
    cell: the reciprocal of the zero is an infinity, its normalised weight
    is NaN, and every coordinate of the returned position is NaN. *)
Theorem zero_distance_gives_nan (cell_positions : ndarray2 float)
    (best_indices : list nat) (metrics : list float) :
  List.length best_indices = List.length metrics ->
  Forall (fun i => i < shape0 cell_positions) best_indices ->
  rectangular cell_positions ->
  Exists (fun d => is_zero d = true) metrics ->
  exists position,
    compute_barycentric_position cell_positions best_indices metrics
    = ([], Returns (Position position)) /\
    List.length position = shape1 cell_positions /\
    Forall (fun c => is_nan c = true) position.
Proof.
  intros Hlen Hidx Hrect Hzero. unfold compute_barycentric_position.
  apply Nat.eqb_eq in Hlen as Hlenb. rewrite Hlenb. simpl.
  rewrite (take_at_in_range [] _ _ Hidx). simpl.
  eexists. split; [reflexivity|].
  set (selected := map (fun i => nth i (rows cell_positions) []) best_indices).
  assert (Hnan : Exists (fun w => is_nan w = true)
                   (normalized_weights metrics)).
  { unfold normalized_weights.
    set (weights := map (fun m => fdiv fone m) metrics).
    assert (Hinf : Exists (fun w => exists s, Prim2SF w = S754_infinity s)
                     weights).
    { unfold weights. apply Exists_map. eapply Exists_impl; [|exact Hzero].
      intros d Hd. now apply inverse_of_zero. }
    assert (Htotal : sf_special (Prim2SF (np_sum weights)) = true).
    { apply sum_special. right. eapply Exists_impl; [|exact Hinf].
      intros w [s Hs]. now rewrite Hs. }
    apply Exists_map. eapply Exists_impl; [|exact Hinf].
    intros w [s Hs]. simpl. eapply div_infinity_special; eauto. }
  apply np_sum_axis0_nan.
  - apply Forall_map, Forall_forall. intros [row w] Hin. simpl.
    unfold scale_row. rewrite length_map.
    apply in_combine_l in Hin. unfold selected in Hin.
    apply in_map_iff in Hin as (i & <- & Hi).
    unfold rectangular in Hrect. rewrite Forall_forall in Hrect, Hidx.
    apply Hrect, nth_In, Hidx, Hi.
  - apply repeat_length.
  - right. apply Exists_exists in Hnan as (w & Hw & Hwnan).
    destruct (combine_In_r selected (normalized_weights metrics) w)
      as [row Hrow]; [|exact Hw|].
    { unfold selected, normalized_weights. rewrite !length_map. exact Hlen. }
    apply Exists_exists.
    exists (scale_row row w). split.
    + apply in_map_iff. now exists (row, w).
    + unfold scale_row. apply Forall_map, Forall_forall.
      intros c _. simpl. now apply mul_nan.
Qed.

End ZeroDistance.

(** The perfect match of the first cell of the demonstration. *)
Lemma zero_distance_gives_nan_witness :
  exists position,
    compute_barycentric_position Demo.cell_positions64
      PerfectMatch.best_indices PerfectMatch.best_metrics
    = ([], Returns (Position position)) /\
    List.length position = shape1 Demo.cell_positions64 /\
    Forall (fun c => is_nan c = true) position.
Proof.
  apply (zero_distance_gives_nan Demo.cell_positions64
           PerfectMatch.best_indices PerfectMatch.best_metrics).
  - reflexivity.
  - unfold shape0. simpl. repeat constructor; lia.
  - repeat constructor.
  - apply Exists_cons_hd. reflexivity.
Defined.

(** C5 as stated: on the perfect match the returned coordinates are not
    finite numbers. *)
Lemma zero_distance_propagates_nan :
  ~ (forall (cell_positions : ndarray2 float) (best_indices : list nat)
            (metrics : list float),
        List.length best_indices = List.length metrics ->
        Forall (fun i => i < shape0 cell_positions) best_indices ->
        rectangular cell_positions ->
        Exists (fun d => is_zero d = true) metrics ->
        exists position,
          outcome_of (compute_barycentric_position cell_positions
                        best_indices metrics)
          = Returns (Position position) /\
          Forall (fun c => is_finite c = true) position).
Proof.
  intros stated.
  destruct (stated Demo.cell_positions64 PerfectMatch.best_indices
              PerfectMatch.best_metrics) as (position & Hrun & Hfinite).
  - reflexivity.
  - unfold shape0. simpl. repeat constructor; lia.
  - repeat constructor.
  - apply Exists_cons_hd. reflexivity.
  - vm_compute in Hrun. injection Hrun as <-.
    apply Forall_inv in Hfinite. vm_compute in Hfinite. discriminate Hfinite.
Qed.

(** ** binary64: a distance too small for its reciprocal *)


(** ** [compute_similarity]: Euclidean distances *)

Section Similarity.

Local Open Scope R_scope.

Lemma distance_squared (r v : list R) :
  fsqrt (np_sum (map square (vec_sub r v))) = sqrt (squared_distance r v).
Proof.
  simpl. f_equal. rewrite np_sum_Rsum. unfold squared_distance, vec_sub.
  rewrite map_map. f_equal. apply map_ext. intros [a b]. unfold square.
  simpl. ring.
Qed.

Lemma squared_distance_nonneg (r v : list R) : 0 <= squared_distance r v.
Proof.
  apply Rsum_nonneg, Forall_map, Forall_forall. intros p _. apply pow2_ge_0.
Qed.

Lemma squared_distance_zero (r v : list R) :
  List.length r = List.length v ->
  (squared_distance r v = 0 <-> r = v).
Proof.
  revert v. induction r as [|a r IH]; intros [|b v] Hlen; simpl in Hlen;
    try discriminate.
  - split; reflexivity.
  - unfold squared_distance. cbn [combine map Rsum fold_right fst snd].
    fold (Rsum (map (fun p => (fst p - snd p) ^ 2) (combine r v))).
    fold (squared_distance r v).
    pose proof (squared_distance_nonneg r v) as Hn.
    pose proof (pow2_ge_0 (a - b)) as Hab.
    split.
    + intros Hz.
      assert (Ha : (a - b) ^ 2 = 0) by lra.
      assert (Hr : squared_distance r v = 0) by lra.
      apply IH in Hr; [|lia]. subst v. f_equal.
      simpl in Ha. apply Rmult_integral in Ha as [Ha|Ha]; [lra|].
      apply Rmult_integral in Ha as [Ha|Ha]; lra.
    + intros E. injection E as -> ->.
      assert (Hr : squared_distance v v = 0) by (apply IH; [lia|reflexivity]).
      rewrite Hr. simpl. ring.
Qed.


End Similarity.


(** ** [find_best_cells]: mismatched input, any [np.argsort], growing [k] *)

Section BestCells.

Context {F : Type} {num : Numeric F}.
Variable argsort : list F -> list nat.

(** X2.  With [k > 0] and dimensions that disagree, the failure of
    [compute_similarity] is not passed on as such: [find_best_cells]
    prints the line of [compute_similarity], then its own line about the
    failed distances, and returns two empty arrays. *)
Theorem find_best_cells_mismatch (reference_vectors : ndarray2 F)
    (mp_vector : list F) (k : Z) :
  (0 < k)%Z ->
  shape1 reference_vectors <> List.length mp_vector ->
  find_best_cells argsort reference_vectors mp_vector k
  = ([Line "Error in compute_similarity: "
        (AssertionError
           "Dimension mismatch between reference vectors and mp_vector");
      Line "Error in find_best_cells: "
        (AssertionError "Metrics computation failed")],
     Returns ([], [])).
Proof.
  intros Hk Hdim. unfold find_best_cells, compute_similarity.
  apply Z.ltb_lt in Hk. apply Nat.eqb_neq in Hdim.
  now rewrite Hk, Hdim.
Qed.

Lemma compute_similarity_returns (reference_vectors : ndarray2 F)
    (mp_vector : list F) :
  exists out metrics,
    compute_similarity reference_vectors mp_vector = (out, Returns metrics).
Proof.
  unfold compute_similarity.
  destruct (shape1 reference_vectors =? List.length mp_vector)%nat;
    simpl; eauto.
Qed.

(** What [v[indices]] does: all the values, or [IndexError] at the
    first index out of bounds; it prints nothing. *)
Lemma take_at_cases {A} (v : list A) (indices : list nat) :
  (exists l, take_at v indices = ([], Returns l) /\
             Forall2 (fun i a => nth_error v i = Some a) indices l) \/
  (exists i, take_at v indices = ([], Raises (IndexError i (List.length v))) /\
             In i indices /\ List.length v <= i).
Proof.
  induction indices as [|i rest IH]; simpl.
  - left. exists []. split; [reflexivity|constructor].
  - destruct (nth_error v i) as [a|] eqn:E.
    + destruct IH as [(l & -> & Hl)|(j & -> & Hj & Hlen)].
      * left. exists (a :: l). split; [reflexivity|now constructor].
      * right. exists j. split; [reflexivity|]. split; [now right|exact Hlen].
    + right. exists i. split; [reflexivity|]. split; [now left|].
      now apply nth_error_None.
Qed.

(** X3.  Whatever [np.argsort] returns, and whatever the input,
    [find_best_cells] raises nothing and returns two arrays of the same
    length, at most [k]; each returned distance is the distance
    [compute_similarity] gives at the returned index beside it. *)
Theorem find_best_cells_well_formed (reference_vectors : ndarray2 F)
    (mp_vector : list F) (k : Z) :
  exists out best_indices best_metrics,
    find_best_cells argsort reference_vectors mp_vector k
    = (out, Returns (best_indices, best_metrics)) /\
    List.length best_indices = List.length best_metrics /\
    List.length best_indices <= Z.to_nat k /\
    forall metrics,
      outcome_of (compute_similarity reference_vectors mp_vector)
      = Returns metrics ->
      Forall2 (fun i d => nth_error metrics i = Some d)
        best_indices best_metrics.
Proof.
  unfold find_best_cells.
  destruct (0 <? k)%Z; simpl.
  2:{ eexists _, [], []. repeat split; simpl; try lia. intros; constructor. }
  destruct (compute_similarity_returns reference_vectors mp_vector)
    as (out & metrics & ->). simpl.
  destruct (0 <? List.length metrics)%nat; simpl.
  2:{ eexists _, [], []. repeat split; simpl; try lia. intros; constructor. }
  destruct (take_at_cases metrics (firstn (Z.to_nat k) (argsort metrics)))
    as [(l & -> & Hl)|(j & -> & _)]; simpl.
  - eexists _, _, _. split; [reflexivity|]. split; [|split].
    + eapply Forall2_length, Hl.
    + rewrite length_firstn. lia.
    + intros m Hm. injection Hm as <-. exact Hl.
  - eexists _, [], []. repeat split; simpl; try lia. intros; constructor.
Qed.

(** X4.  With a sorting [np.argsort], asking for fewer cells gives a
    prefix of what asking for more gives: for [1 <= k <= k'] the indices
    and distances returned for [k] are the first [k] of those returned
    for [k']. *)
Theorem find_best_cells_prefix (reference_vectors : ndarray2 F)
    (mp_vector : list F) (k k' : Z) (metrics : list F) :
  shape1 reference_vectors = List.length mp_vector ->
  0 < shape0 reference_vectors ->
  (1 <= k <= k')%Z ->
  outcome_of (compute_similarity reference_vectors mp_vector)
  = Returns metrics ->
  sorts metrics (argsort metrics) ->
  exists best_indices best_metrics,
    find_best_cells argsort reference_vectors mp_vector k'
    = ([], Returns (best_indices, best_metrics)) /\
    find_best_cells argsort reference_vectors mp_vector k
    = ([], Returns (firstn (Z.to_nat k) best_indices,
                    firstn (Z.to_nat k) best_metrics)).
Proof.
  intros Hdim Hn Hk Hm Hs.
  eexists _, _. split.
  - apply find_best_cells_selects; try eassumption. lia.
  - rewrite (find_best_cells_selects argsort reference_vectors mp_vector k
               metrics) by (try assumption; lia).
    rewrite firstn_map, !firstn_firstn.
    replace (Nat.min (Z.to_nat k) (Z.to_nat k')) with (Z.to_nat k) by lia.
    reflexivity.
Qed.

End BestCells.

(** The demonstration catalogue against a measurement of width 2. *)
Lemma find_best_cells_mismatch_witness :
  find_best_cells argsort_stable Demo.reference_vectors64
    Inputs.short_vector 4
  = ([Line "Error in compute_similarity: "
        (AssertionError
           "Dimension mismatch between reference vectors and mp_vector");
      Line "Error in find_best_cells: "
        (AssertionError "Metrics computation failed")],
     Returns ([], [])).
Proof.
  apply (find_best_cells_mismatch argsort_stable Demo.reference_vectors64
           Inputs.short_vector 4).
  - lia.
  - simpl. lia.
Defined.

(** The demonstration data, [k = 2] against [k' = 4]. *)
Lemma find_best_cells_prefix_witness :
  exists best_indices best_metrics,
    find_best_cells argsort_stable Demo.reference_vectors64
      Demo.mp_vector64 4
    = ([], Returns (best_indices, best_metrics)) /\
    find_best_cells argsort_stable Demo.reference_vectors64
      Demo.mp_vector64 2
    = ([], Returns (firstn (Z.to_nat 2) best_indices,
                    firstn (Z.to_nat 2) best_metrics)).
Proof.
  apply (find_best_cells_prefix argsort_stable Demo.reference_vectors64
           Demo.mp_vector64 2 4 Inputs.metrics64).
  - reflexivity.
  - unfold shape0. simpl. lia.
  - lia.
  - vm_compute. reflexivity.
  - apply argsort_stable_sorts.
Defined.

(** ** [compute_barycentric_position]: when there is no estimate *)

Lemma Forall2_In_left {A B} (P : A -> B -> Prop) (l : list A) (l' : list B)
    (a : A) :
  Forall2 P l l' -> In a l -> exists b, In b l' /\ P a b.
Proof.
  induction 1 as [|x y l l' Hxy _ IH]; simpl; [contradiction|].
  intros [->|Hin].
  - exists y. split; [now left|exact Hxy].
  - destruct (IH Hin) as (b & Hb & Hab). exists b. split; [now right|exact Hab].
Qed.

Lemma Forall2_In_right {A B} (P : A -> B -> Prop) (l : list A) (l' : list B)
    (b : B) :
  Forall2 P l l' -> In b l' -> exists a, In a l /\ P a b.
Proof.
  induction 1 as [|x y l l' Hxy _ IH]; simpl; [contradiction|].
  intros [->|Hin].
  - exists x. split; [now left|exact Hxy].
  - destruct (IH Hin) as (a & Ha & Hab). exists a. split; [now right|exact Hab].
Qed.

Section NoEstimate.

Context {F : Type} {num : Numeric F}.


End NoEstimate.


(** ** [compute_barycentric_position]: the weights, in rounding-free
    arithmetic *)

Section ExactWeights.

Local Open Scope R_scope.

Lemma inverse_sum_positive (metrics : list R) :
  metrics <> [] ->
  Forall (fun d => 0 < d) metrics ->
  0 < np_sum (map (fun m => fdiv fone m) metrics).
Proof.
  intros Hne Hpos. rewrite np_sum_Rsum. apply Rsum_pos.
  - destruct metrics; [congruence|discriminate].
  - now apply inverse_weights_positive.
Qed.

Lemma Rsum_map_scaled {A} (f : A -> R) (c : R) (l : list A) :
  Rsum (map (fun a => c * f a) l) = c * Rsum (map f l).
Proof.
  induction l as [|a l IH]; simpl; [lra|]. rewrite IH. lra.
Qed.

(** X6.  The estimate depends on the ratios of the distances only:
    multiplying every distance (all positive) by the same positive factor
    changes neither the normalised weights nor what
    [compute_barycentric_position] returns. *)
Theorem compute_barycentric_position_scale_invariant
    (cell_positions : ndarray2 R) (best_indices : list nat)
    (metrics : list R) (c : R) :
  0 < c ->
  metrics <> [] ->
  Forall (fun d => 0 < d) metrics ->
  normalized_weights (map (fun d => c * d) metrics)
  = normalized_weights metrics /\
  compute_barycentric_position cell_positions best_indices
    (map (fun d => c * d) metrics)
  = compute_barycentric_position cell_positions best_indices metrics.
Proof.
  intros Hc Hne Hpos.
  assert (Hw : normalized_weights (map (fun d => c * d) metrics)
               = normalized_weights metrics).
  { unfold normalized_weights.
    pose proof (inverse_sum_positive metrics Hne Hpos) as Hs.
    assert (Hsum : np_sum (map (fun m => fdiv fone m)
                             (map (fun d => c * d) metrics))
                   = / c * np_sum (map (fun m => fdiv fone m) metrics)).
    { rewrite map_map, !np_sum_Rsum. simpl.
      rewrite <- Rsum_map_scaled. f_equal.
      apply map_ext_in. intros d Hd. rewrite Forall_forall in Hpos.
      specialize (Hpos d Hd). field. lra. }
    rewrite Hsum, !map_map. apply map_ext_in. intros d Hd.
    rewrite Forall_forall in Hpos. specialize (Hpos d Hd).
    simpl in *. field. repeat split; lra. }
  split; [exact Hw|].
  unfold compute_barycentric_position. now rewrite Hw, length_map.
Qed.

Lemma nth_normalized_weights (metrics : list R) (i : nat) :
  (i < List.length metrics)%nat ->
  nth i (normalized_weights metrics) 0
  = 1 / nth i metrics 0 / np_sum (map (fun m => fdiv fone m) metrics).
Proof.
  intros Hi. unfold normalized_weights.
  set (total := np_sum _).
  rewrite (nth_indep _ 0 ((fun w => fdiv w total) 0))
    by (rewrite !length_map; exact Hi).
  rewrite (map_nth (fun w => fdiv w total)).
  rewrite (nth_indep _ 0 ((fun m => fdiv fone m) 0))
    by (rewrite length_map; exact Hi).
  rewrite (map_nth (fun m => fdiv fone m)). reflexivity.
Qed.

(** X7.  A nearer cell never weighs less: of two selected cells, the one
    at the smaller (positive) distance has the larger or equal normalised
    weight, and equal distances give equal weights. *)
Theorem normalized_weights_antitone (metrics : list R) (i j : nat) :
  Forall (fun d => 0 < d) metrics ->
  (i < List.length metrics)%nat ->
  (j < List.length metrics)%nat ->
  nth i metrics 0 <= nth j metrics 0 ->
  nth j (normalized_weights metrics) 0 <= nth i (normalized_weights metrics) 0.
Proof.
  intros Hpos Hi Hj Hle.
  assert (Hne : metrics <> []) by (destruct metrics; simpl in *; [lia|discriminate]).
  pose proof (inverse_sum_positive metrics Hne Hpos) as Hs.
  rewrite !nth_normalized_weights by assumption.
  rewrite Forall_forall in Hpos.
  pose proof (Hpos _ (nth_In metrics 0 Hi)) as Hdi.
  pose proof (Hpos _ (nth_In metrics 0 Hj)) as Hdj.
  apply Rmult_le_compat_r; [left; now apply Rinv_0_lt_compat|].
  unfold Rdiv. rewrite !Rmult_1_l. now apply Rinv_le_contravar.
Qed.

End ExactWeights.

(** Distances 1 and 2 against 10 and 20. *)
Lemma compute_barycentric_position_scale_invariant_witness :
  normalized_weights (map (fun d => 10 * d) [1; 2])%R
  = normalized_weights [1; 2]%R /\
  compute_barycentric_position Demo.cell_positions [0; 3]
    (map (fun d => 10 * d) [1; 2])%R
  = compute_barycentric_position Demo.cell_positions [0; 3] [1; 2]%R.
Proof.
  apply (compute_barycentric_position_scale_invariant Demo.cell_positions
           [0; 3] [1; 2]%R 10%R).
  - lra.
  - discriminate.
  - repeat constructor; lra.
Defined.

(** Distances 1 and 2. *)
Lemma normalized_weights_antitone_witness :
  (nth 1 (normalized_weights [1; 2]) 0 <= nth 0 (normalized_weights [1; 2]) 0)%R.
Proof.
  apply (normalized_weights_antitone [1; 2]%R 0 1).
  - repeat constructor; lra.
  - simpl. lia.
  - simpl. lia.
  - simpl. lra.
Defined.

Section ExactEstimate.

Local Open Scope R_scope.

Lemma Rsum_repeat (a : R) (k : nat) : Rsum (repeat a k) = INR k * a.
Proof.
  induction k as [|k IH]; [simpl; lra|].
  rewrite S_INR. cbn [repeat Rsum fold_right]. fold (Rsum (repeat a k)).
  rewrite IH. lra.
Qed.

Lemma normalized_weights_equal (d : R) (k : nat) :
  0 < d -> (0 < k)%nat ->
  normalized_weights (repeat d k) = repeat (/ INR k) k.
Proof.
  intros Hd Hk. unfold normalized_weights.
  rewrite !map_repeat, np_sum_Rsum, Rsum_repeat. f_equal. simpl.
  assert (0 < INR k) by (apply lt_0_INR; exact Hk).
  field. split; lra.
Qed.

Lemma weighted_coordinate_equal (w : R) (points : list (list R)) (j : nat) :
  weighted_coordinate (repeat w (List.length points)) points j
  = w * Rsum (map (fun pt => nth j pt 0) points).
Proof.
  unfold weighted_coordinate.
  unfold Rsum.
  induction points as [|pt pts IH];
    cbn [List.length repeat combine map fold_right fst snd]; [lra|].
  rewrite IH. lra.
Qed.

(** X8.  When the selected cells are all at the same positive distance,
    the estimate is their centroid: each coordinate is the arithmetic
    mean of the selected cell positions. *)
Theorem compute_barycentric_position_equal_distances
    (cell_positions : ndarray2 R) (best_indices : list nat) (d : R) :
  0 < d ->
  best_indices <> [] ->
  Forall (fun i => (i < shape0 cell_positions)%nat) best_indices ->
  rectangular cell_positions ->
  compute_barycentric_position cell_positions best_indices
    (repeat d (List.length best_indices))
  = ([], Returns (Position
       (centroid (shape1 cell_positions)
          (map (fun i => nth i (rows cell_positions) []) best_indices)))).
Proof.
  intros Hd Hne Hidx Hrect.
  rewrite compute_barycentric_position_weighted;
    [|now rewrite repeat_length|exact Hidx|exact Hrect].
  do 3 f_equal. unfold weighted_sum, centroid.
  apply map_ext. intros j.
  assert (Hk : (0 < List.length best_indices)%nat)
    by (destruct best_indices; simpl; [congruence|lia]).
  rewrite normalized_weights_equal by assumption.
  set (selected := map _ best_indices).
  replace (List.length best_indices) with (List.length selected)
    by (unfold selected; apply length_map).
  rewrite weighted_coordinate_equal. unfold mean_coordinate, Rdiv. ring.
Qed.

(** X9.  With positive distances, as many as the indices, and indices
    inside the cell positions, the estimate is a convex combination of
    the selected cell positions: it lies in their convex hull. *)
Theorem compute_barycentric_position_in_convex_hull
    (cell_positions : ndarray2 R) (best_indices : list nat)
    (metrics : list R) :
  metrics <> [] ->
  List.length best_indices = List.length metrics ->
  Forall (fun d => 0 < d) metrics ->
  Forall (fun i => (i < shape0 cell_positions)%nat) best_indices ->
  rectangular cell_positions ->
  exists position,
    compute_barycentric_position cell_positions best_indices metrics
    = ([], Returns (Position position)) /\
    in_convex_hull
      (map (fun i => nth i (rows cell_positions) []) best_indices) position.
Proof.
  intros Hne Hlen Hpos Hidx Hrect. eexists. split.
  - now apply compute_barycentric_position_weighted.
  - now apply barycentre_in_convex_hull.
Qed.

End ExactEstimate.

(** Cells 0 and 3 of the demonstration, both at distance 2. *)
Lemma compute_barycentric_position_equal_distances_witness :
  compute_barycentric_position Demo.cell_positions [0; 3]
    (repeat 2%R (List.length [0; 3]))
  = ([], Returns (Position
       (centroid (shape1 Demo.cell_positions)
          (map (fun i => nth i (rows Demo.cell_positions) []) [0; 3])))).
Proof.
  apply (compute_barycentric_position_equal_distances Demo.cell_positions
           [0; 3] 2%R).
  - lra.
  - discriminate.
  - unfold shape0. simpl. repeat constructor; lia.
  - repeat constructor.
Defined.

(** Cells 0 and 3 of the demonstration at distances 1 and 2. *)
Lemma compute_barycentric_position_in_convex_hull_witness :
  exists position,
    compute_barycentric_position Demo.cell_positions [0; 3] [1; 2]%R
    = ([], Returns (Position position)) /\
    in_convex_hull
      (map (fun i => nth i (rows Demo.cell_positions) []) [0; 3]) position.
Proof.
  apply (compute_barycentric_position_in_convex_hull Demo.cell_positions
           [0; 3] [1; 2]%R).
  - discriminate.
  - reflexivity.
  - repeat constructor; lra.
  - unfold shape0. simpl. repeat constructor; lia.
  - repeat constructor.
Defined.

(** ** [calculate_error]: edge behaviour and symmetries *)

Section ErrorSymmetries.

Local Open Scope R_scope.

Lemma calculate_error_value (x y z : R)
    (access_points : list (AccessPoint R)) :
  calculate_error [x; y; z] access_points
  = ([], Returns (Error (residual x y z access_points))).
Proof.
  unfold calculate_error. simpl. rewrite accumulate_residual.
  do 3 f_equal. lra.
Qed.

Lemma residual_nonneg (x y z : R) (access_points : list (AccessPoint R)) :
  0 <= residual x y z access_points.
Proof.
  apply Rsum_nonneg, Forall_map, Forall_forall. intros ap _.
  apply pow2_ge_0.
Qed.

Lemma residual_zero (x y z : R) (access_points : list (AccessPoint R)) :
  residual x y z access_points = 0 <->
  Forall (consistent x y z) access_points.
Proof.
  unfold residual. split.
  - intros Hz. apply Rsum_zero in Hz.
    + rewrite Forall_map in Hz. eapply Forall_impl; [|exact Hz].
      intros ap Hap. simpl in Hap. unfold consistent.
      assert (euclidean_distance x y z ap - ap_radius ap = 0); [|lra].
      apply Rmult_integral in Hap as [Hap|Hap]; [exact Hap|].
      apply Rmult_integral in Hap as [Hap|Hap]; [exact Hap|lra].
    + apply Forall_map, Forall_forall. intros ap _. apply pow2_ge_0.
  - induction 1 as [|ap aps Hap _ IH]; [reflexivity|].
    unfold Rsum in *. cbn [map fold_right].
    rewrite IH. unfold consistent in Hap. rewrite Hap. lra.
Qed.

Lemma Rsum_permutation (l l' : list R) :
  Permutation l l' -> Rsum l = Rsum l'.
Proof.
  induction 1; simpl; lra.
Qed.

(** X11.  The error does not depend on the order of the access points:
    [calculate_error] returns the same for any rearrangement of them. *)
Theorem calculate_error_order_independent (position : list R)
    (access_points access_points' : list (AccessPoint R)) :
  Permutation access_points access_points' ->
  calculate_error position access_points
  = calculate_error position access_points'.
Proof.
  intros Hperm.
  destruct position as [|x [|y [|z [|t rest]]]]; try reflexivity.
  rewrite !calculate_error_value. do 3 f_equal.
  unfold residual. apply Rsum_permutation. now apply Permutation_map.
Qed.

(** X12.  Noiseless ranges make the true point a global minimum: when
    every access point's radius is its Euclidean distance to
    [(px, py, pz)], [calculate_error] returns 0 there, and at every other
    position it returns an error that is not negative. *)
Theorem true_point_minimises_error (px py pz : R)
    (access_points : list (AccessPoint R)) :
  Forall (consistent px py pz) access_points ->
  calculate_error [px; py; pz] access_points = ([], Returns (Error 0)) /\
  forall x y z, exists e,
    calculate_error [x; y; z] access_points = ([], Returns (Error e)) /\
    0 <= e.
Proof.
  intros Hcons. split.
  - rewrite calculate_error_value. do 3 f_equal. now apply residual_zero.
  - intros x y z. eexists. split; [apply calculate_error_value|].
    apply residual_nonneg.
Qed.

End ErrorSymmetries.

Section Uniqueness.

Local Open Scope R_scope.

(** A homogeneous linear system with a non-zero determinant has the zero
    solution only. *)
Lemma cramer_zero (b1 c1 d1 b2 c2 d2 b3 c3 d3 ux uy uz : R) :
  b1 * ux + c1 * uy + d1 * uz = 0 ->
  b2 * ux + c2 * uy + d2 * uz = 0 ->
  b3 * ux + c3 * uy + d3 * uz = 0 ->
  b1 * (c2 * d3 - c3 * d2) - c1 * (b2 * d3 - b3 * d2)
  + d1 * (b2 * c3 - b3 * c2) <> 0 ->
  ux = 0 /\ uy = 0 /\ uz = 0.
Proof.
  intros E1 E2 E3 HD.
  set (D := b1 * (c2 * d3 - c3 * d2) - c1 * (b2 * d3 - b3 * d2)
            + d1 * (b2 * c3 - b3 * c2)) in *.
  assert (Hx : D * ux = 0).
  { replace (D * ux)
      with ((b1 * ux + c1 * uy + d1 * uz) * (c2 * d3 - c3 * d2)
            - (b2 * ux + c2 * uy + d2 * uz) * (c1 * d3 - c3 * d1)
            + (b3 * ux + c3 * uy + d3 * uz) * (c1 * d2 - c2 * d1))
      by (unfold D; ring).
    rewrite E1, E2, E3. ring. }
  assert (Hy : D * uy = 0).
  { replace (D * uy)
      with (- (b1 * ux + c1 * uy + d1 * uz) * (b2 * d3 - b3 * d2)
            + (b2 * ux + c2 * uy + d2 * uz) * (b1 * d3 - b3 * d1)
            - (b3 * ux + c3 * uy + d3 * uz) * (b1 * d2 - b2 * d1))
      by (unfold D; ring).
    rewrite E1, E2, E3. ring. }
  assert (Hz : D * uz = 0).
  { replace (D * uz)
      with ((b1 * ux + c1 * uy + d1 * uz) * (b2 * c3 - b3 * c2)
            - (b2 * ux + c2 * uy + d2 * uz) * (b1 * c3 - b3 * c1)
            + (b3 * ux + c3 * uy + d3 * uz) * (b1 * c2 - b2 * c1))
      by (unfold D; ring).
    rewrite E1, E2, E3. ring. }
  repeat split.
  - apply Rmult_integral in Hx as [Hx|Hx]; [contradiction|exact Hx].
  - apply Rmult_integral in Hy as [Hy|Hy]; [contradiction|exact Hy].
  - apply Rmult_integral in Hz as [Hz|Hz]; [contradiction|exact Hz].
Qed.

(** Two points at the same distance from an anchor. *)
Lemma same_distance_squares (x y z px py pz : R) (ap : AccessPoint R) :
  euclidean_distance x y z ap = euclidean_distance px py pz ap ->
  (x - ap_x ap) ^ 2 + (y - ap_y ap) ^ 2 + (z - ap_z ap) ^ 2
  = (px - ap_x ap) ^ 2 + (py - ap_y ap) ^ 2 + (pz - ap_z ap) ^ 2.
Proof.
  unfold euclidean_distance. intros H. apply sqrt_inj in H; [exact H| |].
  - pose proof (pow2_ge_0 (x - ap_x ap)). pose proof (pow2_ge_0 (y - ap_y ap)).
    pose proof (pow2_ge_0 (z - ap_z ap)). lra.
  - pose proof (pow2_ge_0 (px - ap_x ap)).
    pose proof (pow2_ge_0 (py - ap_y ap)).
    pose proof (pow2_ge_0 (pz - ap_z ap)). lra.
Qed.

Lemma four_anchors_determine (x y z px py pz : R)
    (a0 a1 a2 a3 : AccessPoint R) (access_points : list (AccessPoint R)) :
  In a0 access_points -> In a1 access_points ->
  In a2 access_points -> In a3 access_points ->
  volume a0 a1 a2 a3 <> 0 ->
  Forall (consistent px py pz) access_points ->
  Forall (consistent x y z) access_points ->
  x = px /\ y = py /\ z = pz.
Proof.
  intros H0 H1 H2 H3 Hvol Hp Hq. rewrite Forall_forall in Hp, Hq.
  assert (Hsame : forall a, In a access_points ->
            (x - ap_x a) ^ 2 + (y - ap_y a) ^ 2 + (z - ap_z a) ^ 2
            = (px - ap_x a) ^ 2 + (py - ap_y a) ^ 2 + (pz - ap_z a) ^ 2).
  { intros a Ha. apply same_distance_squares.
    specialize (Hp a Ha). specialize (Hq a Ha). unfold consistent in *.
    congruence. }
  pose proof (Hsame a0 H0) as E0. pose proof (Hsame a1 H1) as E1.
  pose proof (Hsame a2 H2) as E2. pose proof (Hsame a3 H3) as E3.
  unfold volume in Hvol.
  destruct (cramer_zero
              (ap_x a1 - ap_x a0) (ap_y a1 - ap_y a0) (ap_z a1 - ap_z a0)
              (ap_x a2 - ap_x a0) (ap_y a2 - ap_y a0) (ap_z a2 - ap_z a0)
              (ap_x a3 - ap_x a0) (ap_y a3 - ap_y a0) (ap_z a3 - ap_z a0)
              (x - px) (y - py) (z - pz)) as (Hx & Hy & Hz);
    try lra; try exact Hvol.
Qed.

Lemma error_zero_at_true_point (x y z px py pz : R)
    (a0 a1 a2 a3 : AccessPoint R) (access_points : list (AccessPoint R)) :
  In a0 access_points -> In a1 access_points ->
  In a2 access_points -> In a3 access_points ->
  volume a0 a1 a2 a3 <> 0 ->
  Forall (consistent px py pz) access_points ->
  calculate_error [x; y; z] access_points = ([], Returns (Error 0)) ->
  [x; y; z] = [px; py; pz].
Proof.
  intros H0 H1 H2 H3 Hvol Hp Herr.
  rewrite calculate_error_value in Herr.
  assert (Hres : residual x y z access_points = 0) by congruence.
  apply residual_zero in Hres.
  destruct (four_anchors_determine x y z px py pz a0 a1 a2 a3 access_points)
    as (-> & -> & ->); auto.
Qed.

(** X13.  Four access points that are not coplanar pin the position
    down: when the radii are the exact distances to [(px, py, pz)],
    [calculate_error] returns 0 at no other position. *)
Theorem error_zero_only_at_true_point (x y z px py pz : R)
    (a0 a1 a2 a3 : AccessPoint R) (access_points : list (AccessPoint R)) :
  In a0 access_points -> In a1 access_points ->
  In a2 access_points -> In a3 access_points ->
  volume a0 a1 a2 a3 <> 0 ->
  Forall (consistent px py pz) access_points ->
  calculate_error [x; y; z] access_points = ([], Returns (Error 0)) ->
  [x; y; z] = [px; py; pz].
Proof.
  intros H0 H1 H2 H3 Hvol Hp Herr.
  now apply (error_zero_at_true_point x y z px py pz a0 a1 a2 a3
               access_points).
Qed.

End Uniqueness.

Lemma tetrahedron_consistent :
  Forall (consistent 1 1 1) Tetrahedron.access_points.
Proof. repeat constructor. Qed.

Lemma tetrahedron_volume :
  volume Tetrahedron.a0 Tetrahedron.a1 Tetrahedron.a2 Tetrahedron.a3 <> 0%R.
Proof. unfold volume. simpl. lra. Qed.

(** The corner and the three axes, ranges to [(1, 1, 1)]. *)
Lemma error_zero_only_at_true_point_witness :
  [1; 1; 1]%R = [1; 1; 1]%R.
Proof.
  apply (error_zero_only_at_true_point 1 1 1 1 1 1
           Tetrahedron.a0 Tetrahedron.a1 Tetrahedron.a2 Tetrahedron.a3
           Tetrahedron.access_points).
  - simpl. tauto.
  - simpl. tauto.
  - simpl. tauto.
  - simpl. tauto.
  - exact tetrahedron_volume.
  - exact tetrahedron_consistent.
  - rewrite calculate_error_value. do 3 f_equal.
    apply residual_zero, tetrahedron_consistent.
Defined.

Lemma true_point_minimises_error_witness :
  calculate_error [1; 1; 1]%R Tetrahedron.access_points
  = ([], Returns (Error 0%R)) /\
  forall x y z, exists e,
    calculate_error [x; y; z] Tetrahedron.access_points
    = ([], Returns (Error e)) /\ (0 <= e)%R.
Proof.
  apply (true_point_minimises_error 1 1 1 Tetrahedron.access_points).
  exact tetrahedron_consistent.
Defined.

Lemma calculate_error_order_independent_witness :
  calculate_error [1; 1; 1]%R Tetrahedron.access_points
  = calculate_error [1; 1; 1]%R (rev Tetrahedron.access_points).
Proof.
  apply (calculate_error_order_independent [1; 1; 1]%R
           Tetrahedron.access_points (rev Tetrahedron.access_points)).
  apply Permutation_rev.
Defined.

Section Mirror.

Local Open Scope R_scope.

Lemma mirror_same_error (ox oy oz nx ny nz x y z : R)
    (access_points : list (AccessPoint R)) :
  nx * nx + ny * ny + nz * nz <> 0 ->
  Forall (in_plane ox oy oz nx ny nz) access_points ->
  calculate_error (mirror ox oy oz nx ny nz x y z) access_points
  = calculate_error [x; y; z] access_points.
Proof.
  intros Hn Hplane. unfold mirror.
  rewrite !calculate_error_value. do 3 f_equal.
  unfold residual. f_equal. apply map_ext_in. intros ap Hap.
  rewrite Forall_forall in Hplane. specialize (Hplane ap Hap).
  unfold in_plane in Hplane. f_equal. f_equal.
  unfold euclidean_distance. f_equal.
  set (N := nx * nx + ny * ny + nz * nz) in *.
  set (t := nx * (x - ox) + ny * (y - oy) + nz * (z - oz)).
  assert (Ht : nx * (x - ap_x ap) + ny * (y - ap_y ap) + nz * (z - ap_z ap)
               = t) by (unfold t; lra).
  replace ((x - 2 * t / N * nx - ap_x ap) ^ 2
           + (y - 2 * t / N * ny - ap_y ap) ^ 2
           + (z - 2 * t / N * nz - ap_z ap) ^ 2)
    with ((x - ap_x ap) ^ 2 + (y - ap_y ap) ^ 2 + (z - ap_z ap) ^ 2
          - 4 * (t / N)
            * (nx * (x - ap_x ap) + ny * (y - ap_y ap) + nz * (z - ap_z ap))
          + 4 * (t / N) * (t / N) * N)
    by (unfold N; field; exact Hn).
  rewrite Ht. field. exact Hn.
Qed.

Lemma mirror_moves (ox oy oz nx ny nz x y z : R) :
  nx * nx + ny * ny + nz * nz <> 0 ->
  nx * (x - ox) + ny * (y - oy) + nz * (z - oz) <> 0 ->
  mirror ox oy oz nx ny nz x y z <> [x; y; z].
Proof.
  intros Hn Ht E. unfold mirror in E.
  set (N := nx * nx + ny * ny + nz * nz) in *.
  set (t := nx * (x - ox) + ny * (y - oy) + nz * (z - oz)) in *.
  injection E as Ex Ey Ez.
  assert (Hs : 2 * t / N * N = 0).
  { replace (2 * t / N * N)
      with (2 * t / N * nx * nx + 2 * t / N * ny * ny + 2 * t / N * nz * nz)
      by (unfold N; ring).
    replace (2 * t / N * nx) with 0 by lra.
    replace (2 * t / N * ny) with 0 by lra.
    replace (2 * t / N * nz) with 0 by lra. ring. }
  apply Ht. replace t with (2 * t / N * N / 2) by (field; exact Hn).
  rewrite Hs. lra.
Qed.

(** X14.  Coplanar access points cannot tell a point from its mirror
    image: when every access point lies in one plane, [calculate_error]
    returns the same at a position and at its reflection in that plane,
    whatever the radii are; and the reflection of a position off the
    plane is another position. *)
Theorem calculate_error_mirror (ox oy oz nx ny nz x y z : R)
    (access_points : list (AccessPoint R)) :
  nx * nx + ny * ny + nz * nz <> 0 ->
  Forall (in_plane ox oy oz nx ny nz) access_points ->
  calculate_error (mirror ox oy oz nx ny nz x y z) access_points
  = calculate_error [x; y; z] access_points /\
  (nx * (x - ox) + ny * (y - oy) + nz * (z - oz) <> 0 ->
   mirror ox oy oz nx ny nz x y z <> [x; y; z]).
Proof.
  intros Hn Hplane. split.
  - now apply mirror_same_error.
  - intros Ht. now apply mirror_moves.
Qed.

(** X15.  Three access points, the number [trilaterate] asks for, do not
    pin the position down.  For three access points that are not on one
    line, with radii that are the exact distances to a point
    [(px, py, pz)] off their plane, [calculate_error] returns 0 at a
    second position as well. *)
Theorem three_access_points_ambiguous (a0 a1 a2 : AccessPoint R)
    (px py pz : R) :
  let nx := (ap_y a1 - ap_y a0) * (ap_z a2 - ap_z a0)
            - (ap_z a1 - ap_z a0) * (ap_y a2 - ap_y a0) in
  let ny := (ap_z a1 - ap_z a0) * (ap_x a2 - ap_x a0)
            - (ap_x a1 - ap_x a0) * (ap_z a2 - ap_z a0) in
  let nz := (ap_x a1 - ap_x a0) * (ap_y a2 - ap_y a0)
            - (ap_y a1 - ap_y a0) * (ap_x a2 - ap_x a0) in
  nx * nx + ny * ny + nz * nz <> 0 ->
  nx * (px - ap_x a0) + ny * (py - ap_y a0) + nz * (pz - ap_z a0) <> 0 ->
  Forall (consistent px py pz) [a0; a1; a2] ->
  exists position,
    position <> [px; py; pz] /\
    calculate_error position [a0; a1; a2] = ([], Returns (Error 0)).
Proof.
  intros nx ny nz Hn Hoff Hcons.
  exists (mirror (ap_x a0) (ap_y a0) (ap_z a0) nx ny nz px py pz).
  split.
  - now apply mirror_moves.
  - rewrite mirror_same_error.
    + rewrite calculate_error_value. do 3 f_equal.
      now apply residual_zero.
    + exact Hn.
    + repeat constructor; unfold in_plane, nx, ny, nz; ring.
Qed.

End Mirror.

(** The three ground anchors of the tetrahedron, the plane [z = 0], and
    the point [(1, 1, 1)], whose mirror image is [(1, 1, -1)]. *)
Lemma calculate_error_mirror_witness :
  calculate_error (mirror 0 0 0 0 0 1 1 1 1) Tetrahedron.ground
  = calculate_error [1; 1; 1]%R Tetrahedron.ground /\
  ((0 * (1 - 0) + 0 * (1 - 0) + 1 * (1 - 0))%R <> 0%R ->
   mirror 0 0 0 0 0 1 1 1 1 <> [1; 1; 1]%R).
Proof.
  apply (calculate_error_mirror 0 0 0 0 0 1 1 1 1 Tetrahedron.ground).
  - lra.
  - repeat constructor; unfold in_plane; simpl; lra.
Defined.

(** The same three anchors and the point [(1, 1, 1)]. *)
Lemma three_access_points_ambiguous_witness :
  exists position,
    position <> [1; 1; 1]%R /\
    calculate_error position Tetrahedron.ground = ([], Returns (Error 0%R)).
Proof.
  apply (three_access_points_ambiguous Tetrahedron.a0 Tetrahedron.a1
           Tetrahedron.a2 1 1 1).
  - simpl. lra.
  - simpl. lra.
  - repeat constructor.
Defined.

(** ** [trilaterate]: what the caller gets *)

Section TrilaterateCaller.

Context {F : Type} {num : Numeric F}.
Variable minimize :
  (list F -> error_value F) -> list F -> outcome (OptimizeResult F).

(** X16.  [trilaterate] raises nothing, whatever the minimiser does, and
    it returns [None] exactly when there are fewer than three access
    points or the minimiser raised an [AssertionError]; in every other
    case the caller gets a list. *)
Theorem trilaterate_none_iff (access_points : list (AccessPoint F)) :
  exists out r,
    trilaterate minimize access_points = (out, Returns r) /\
    (r = None <->
     List.length access_points < 3 \/
     exists msg,
       minimize (objective access_points) [fzero; fzero; fzero]
       = Raises (AssertionError msg)).
Proof.
  unfold trilaterate.
  destruct (3 <=? List.length access_points)%nat eqn:E; simpl.
  - apply Nat.leb_le in E.
    destruct (minimize (objective access_points) [fzero; fzero; fzero])
      as [res|[msg|i n|msg]]; simpl;
      eexists _, _; (split; [reflexivity|]); split.
    + discriminate.
    + intros [H|[m H]]; [lia|discriminate].
    + intros _. right. now exists msg.
    + reflexivity.
    + discriminate.
    + intros [H|[m H]]; [lia|discriminate].
    + discriminate.
    + intros [H|[m H]]; [lia|discriminate].
  - apply Nat.leb_gt in E. eexists _, _. split; [reflexivity|].
    split; [intros _; now left|reflexivity].
Qed.

End TrilaterateCaller.

Section TrilaterateExact.

Local Open Scope R_scope.

Variable minimize :
  (list R -> error_value R) -> list R -> outcome (OptimizeResult R).


End TrilaterateExact.


(** ** [AccessPoint.__init__] and the limits of the plot *)

Section ConstructorFacts.

Local Open Scope R_scope.

(** X18.  [AccessPoint.__init__] prints nothing and ends in one of two
    ways: it raises an [AssertionError] to its caller, or it returns an
    access point whose radius is positive and whose fields are the
    arguments.  It returns exactly when the id is an integer, the three
    coordinates and the radius are numbers, the radius is positive and
    the colour is a string. *)
Theorem AccessPoint_init_positive_radius (id x y z radius color : pyval R) :
  (is_int id && is_number x && is_number y && is_number z
   && (is_number radius && is_positive radius) && is_str color = true ->
   exists ap,
     AccessPoint_init id x y z radius color = ([], Returns ap) /\
     0 < ap_radius ap /\
     ap_id ap = int_value id /\ ap_x ap = number_value x /\
     ap_y ap = number_value y /\ ap_z ap = number_value z /\
     ap_radius ap = number_value radius) /\
  (is_int id && is_number x && is_number y && is_number z
   && (is_number radius && is_positive radius) && is_str color = false ->
   exists msg,
     AccessPoint_init id x y z radius color
     = ([], Raises (AssertionError msg))).
Proof.
  unfold AccessPoint_init. split.
  - intros H.
    apply andb_prop in H as [H Hcolor]. apply andb_prop in H as [H Hradius].
    apply andb_prop in H as [H Hz]. apply andb_prop in H as [H Hy].
    apply andb_prop in H as [Hid Hx].
    rewrite Hid, Hx, Hy, Hz, Hradius, Hcolor.
    simpl. eexists. split; [reflexivity|]. simpl.
    repeat split.
    apply andb_prop in Hradius as [_ Hpos].
    destruct radius as [n|b|r|s|]; simpl in *; try discriminate.
    + apply IZR_lt. now apply Z.ltb_lt.
    + rewrite Hpos. lra.
    + destruct (Rlt_dec 0 r); [assumption|discriminate].
  - intros H.
    destruct (is_int id); [|simpl; eauto].
    destruct (is_number x); [|simpl; eauto].
    destruct (is_number y); [|simpl; eauto].
    destruct (is_number z); [|simpl; eauto].
    destruct (is_number radius && is_positive radius); [|simpl; eauto].
    destruct (is_str color); [discriminate|simpl; eauto].
Qed.

End ConstructorFacts.

Section PlotLimits.

Local Open Scope R_scope.

Lemma py_min_least (a : R) (rest : list R) :
  let m := fold_left (fun cur item => if py_lt item cur then item else cur)
             rest a in
  m <= a /\ Forall (fun x => m <= x) rest.
Proof.
  revert a. induction rest as [|b rest IH]; intros a; simpl.
  - split; [lra|constructor].
  - destruct (Rlt_dec b a) as [Hlt|Hge].
    + destruct (IH b) as [Hb Hrest]. simpl in Hb, Hrest.
      split; [lra|]. constructor; [exact Hb|exact Hrest].
    + destruct (IH a) as [Ha Hrest]. simpl in Ha, Hrest.
      split; [exact Ha|]. constructor; [lra|exact Hrest].
Qed.

Lemma py_max_greatest (a : R) (rest : list R) :
  let m := fold_left (fun cur item => if py_lt cur item then item else cur)
             rest a in
  a <= m /\ Forall (fun x => x <= m) rest.
Proof.
  revert a. induction rest as [|b rest IH]; intros a; simpl.
  - split; [lra|constructor].
  - destruct (Rlt_dec a b) as [Hlt|Hge].
    + destruct (IH b) as [Hb Hrest]. simpl in Hb, Hrest.
      split; [lra|]. constructor; [exact Hb|exact Hrest].
    + destruct (IH a) as [Ha Hrest]. simpl in Ha, Hrest.
      split; [exact Ha|]. constructor; [lra|exact Hrest].
Qed.

Lemma axis_limits_enclose (all_x all_r : list R) :
  all_x <> [] -> all_r <> [] ->
  exists lo hi,
    axis_limits all_x all_r = ([], Returns (lo, hi)) /\
    forall x r, In x all_x -> In r all_r ->
      lo + 1 <= x - r /\ x + r + 1 <= hi.
Proof.
  intros Hx Hr. unfold axis_limits.
  destruct all_x as [|x0 xs]; [congruence|].
  destruct all_r as [|r0 rs]; [congruence|]. simpl.
  eexists _, _. split; [reflexivity|].
  destruct (py_min_least x0 xs) as [Hmin0 Hmin].
  destruct (py_max_greatest x0 xs) as [Hmax0 Hmax].
  destruct (py_max_greatest r0 rs) as [Hr0 Hrs].
  simpl in *. rewrite Forall_forall in Hmin, Hmax, Hrs.
  intros x r [<-|Hinx] [<-|Hinr];
    try specialize (Hmin _ Hinx); try specialize (Hmax _ Hinx);
    try specialize (Hrs _ Hinr); lra.
Qed.

(** X19.  The plot limits [draw] computes leave room for every sphere:
    for at least one access point, each access point's sphere (its
    centre give or take its radius) lies inside the limits on the three
    axes, with a margin of 1. *)
Theorem draw_limits_enclose_spheres (access_points : list (AccessPoint R)) :
  access_points <> [] ->
  exists x_min x_max y_min y_max z_min z_max,
    draw_limits access_points
    = ([], Returns ((x_min, x_max), (y_min, y_max), (z_min, z_max))) /\
    Forall (fun ap =>
              x_min + 1 <= ap_x ap - ap_radius ap /\
              ap_x ap + ap_radius ap + 1 <= x_max /\
              y_min + 1 <= ap_y ap - ap_radius ap /\
              ap_y ap + ap_radius ap + 1 <= y_max /\
              z_min + 1 <= ap_z ap - ap_radius ap /\
              ap_z ap + ap_radius ap + 1 <= z_max)
      access_points.
Proof.
  intros Hne. unfold draw_limits.
  assert (Hmap : forall f : AccessPoint R -> R, map f access_points <> []).
  { intros f E. apply map_eq_nil in E. contradiction. }
  destruct (axis_limits_enclose (map (@ap_x R) access_points)
              (map (@ap_radius R) access_points) (Hmap _) (Hmap _))
    as (xlo & xhi & -> & Hx).
  destruct (axis_limits_enclose (map (@ap_y R) access_points)
              (map (@ap_radius R) access_points) (Hmap _) (Hmap _))
    as (ylo & yhi & -> & Hy).
  destruct (axis_limits_enclose (map (@ap_z R) access_points)
              (map (@ap_radius R) access_points) (Hmap _) (Hmap _))
    as (zlo & zhi & -> & Hz).
  simpl. eexists _, _, _, _, _, _. split; [reflexivity|].
  apply Forall_forall. intros ap Hap.
  pose proof (in_map (@ap_x R) _ _ Hap) as Hix.
  pose proof (in_map (@ap_y R) _ _ Hap) as Hiy.
  pose proof (in_map (@ap_z R) _ _ Hap) as Hiz.
  pose proof (in_map (@ap_radius R) _ _ Hap) as Hir.
  specialize (Hx _ _ Hix Hir). specialize (Hy _ _ Hiy Hir).
  specialize (Hz _ _ Hiz Hir). lra.
Qed.

End PlotLimits.

Lemma draw_limits_enclose_spheres_witness :
  exists x_min x_max y_min y_max z_min z_max,
    draw_limits Tetrahedron.access_points
    = ([], Returns ((x_min, x_max), (y_min, y_max), (z_min, z_max))) /\
    Forall (fun ap =>
              x_min + 1 <= ap_x ap - ap_radius ap /\
              ap_x ap + ap_radius ap + 1 <= x_max /\
              y_min + 1 <= ap_y ap - ap_radius ap /\
              ap_y ap + ap_radius ap + 1 <= y_max /\
              z_min + 1 <= ap_z ap - ap_radius ap /\
              ap_z ap + ap_radius ap + 1 <= z_max)%R
      Tetrahedron.access_points.
Proof.
  apply (draw_limits_enclose_spheres Tetrahedron.access_points).
  discriminate.
Defined.

(** ** website.py: the table of page transitions *)

Module WebsiteFacts.

Import Website.

Section DictFacts.

Context {K V : Type} (eqb : K -> K -> bool).
Hypothesis eqb_spec : forall a b, eqb a b = true <-> a = b.

Lemma eqb_refl (a : K) : eqb a a = true.
Proof. now apply eqb_spec. Qed.

Lemma eqb_neq (a b : K) : a <> b -> eqb a b = false.
Proof.
  intros H. destruct (eqb a b) eqn:E; [|reflexivity].
  apply eqb_spec in E. contradiction.
Qed.

Lemma dict_get_set_same (k : K) (v : V) (d : dict K V) :
  dict_get eqb k (dict_set eqb k v d) = Some v.
Proof.
  induction d as [|[k' v'] d IH]; simpl.
  - now rewrite eqb_refl.
  - destruct (eqb k k') eqn:E; simpl.
    + now rewrite eqb_refl.
    + now rewrite E.
Qed.

Lemma dict_get_set_other (k k0 : K) (v : V) (d : dict K V) :
  k0 <> k ->
  dict_get eqb k0 (dict_set eqb k v d) = dict_get eqb k0 d.
Proof.
  intros Hne. induction d as [|[k' v'] d IH]; simpl.
  - now rewrite (eqb_neq _ _ Hne).
  - destruct (eqb k k') eqn:E; simpl.
    + apply eqb_spec in E. subst k'. now rewrite (eqb_neq _ _ Hne).
    + now rewrite IH.
Qed.

Lemma dict_get_None (k : K) (d : dict K V) :
  dict_get eqb k d = None <-> ~ In k (keys d).
Proof.
  induction d as [|[k' v'] d IH]; simpl.
  - tauto.
  - destruct (eqb k k') eqn:E.
    + apply eqb_spec in E. split; [discriminate|]. intros H. exfalso. auto.
    + rewrite IH. split.
      * intros H [E'|H']; [|auto]. subst k'. now rewrite eqb_refl in E.
      * intros H H'. apply H. now right.
Qed.

Lemma keys_dict_set (k : K) (v : V) (d : dict K V) :
  keys (dict_set eqb k v d)
  = match dict_get eqb k d with
    | Some _ => keys d
    | None => keys d ++ [k]
    end.
Proof.
  induction d as [|[k' v'] d IH]; simpl; [reflexivity|].
  destruct (eqb k k') eqn:E; simpl.
  - apply eqb_spec in E. now subst.
  - rewrite IH. now destruct (dict_get eqb k d).
Qed.

Lemma keys_dict_set_NoDup (k : K) (v : V) (d : dict K V) :
  NoDup (keys d) -> NoDup (keys (dict_set eqb k v d)).
Proof.
  intros Hd. rewrite keys_dict_set.
  destruct (dict_get eqb k d) eqn:E; [exact Hd|].
  apply dict_get_None in E.
  apply (Permutation_NoDup (l := k :: keys d)); [|now constructor].
  apply Permutation_cons_append.
Qed.

End DictFacts.

Lemma total_of_fold (values : list Z) (acc : Z) :
  fold_left Z.add values acc = (acc + fold_right Z.add 0 values)%Z.
Proof.
  revert acc. induction values as [|v vs IH]; simpl; intros acc; [lia|].
  rewrite IH. lia.
Qed.

Lemma total_of_cons (k : string) (c : Z) (d : dict string Z) :
  total_of ((k, c) :: d) = (c + total_of d)%Z.
Proof.
  unfold total_of, values. simpl. rewrite !total_of_fold. lia.
Qed.

Lemma total_of_dict_set (key : string) (v : Z) (d : dict string Z) :
  total_of (dict_set String.eqb key v d)
  = (total_of d + v
     - match dict_get String.eqb key d with Some c => c | None => 0 end)%Z.
Proof.
  induction d as [|[k c] d IH]; simpl.
  - rewrite total_of_cons. unfold total_of. simpl. lia.
  - destruct (String.eqb key k); rewrite !total_of_cons; [lia|].
    rewrite IH. lia.
Qed.

Lemma total_of_increment (key : string) (d : dict string Z) :
  total_of (increment key d) = (total_of d + 1)%Z.
Proof.
  unfold increment, count_of. rewrite total_of_dict_set.
  destruct (dict_get String.eqb key d); lia.
Qed.

Lemma string_eqb_spec (a b : string) : String.eqb a b = true <-> a = b.
Proof. apply String.eqb_eq. Qed.

Lemma nat_eqb_spec (a b : nat) : Nat.eqb a b = true <-> a = b.
Proof. apply Nat.eqb_eq. Qed.

Local Open Scope string_scope.

(** X20.  [track_page_transition] always leaves the current page as the
    session's previous page.  When the session came with a (non-empty)
    previous page [p], the count of ["p -> current"] goes up by one
    (from 0 if the transition is new), no other count changes, and the
    total goes up by one; when it came with none, the table is left as
    it is. *)
Theorem track_page_transition_counts (current_page : string)
    (session : dict string string) (table : dict string Z) :
  let session' := fst (track_page_transition current_page session table) in
  let table' := snd (track_page_transition current_page session table) in
  dict_get String.eqb "previous_page" session' = Some current_page /\
  match dict_get String.eqb "previous_page" session with
  | Some p =>
      if String.eqb p ""
      then table' = table
      else
        let key := p ++ " -> " ++ current_page in
        dict_get String.eqb key table' = Some (count_of key table + 1)%Z /\
        (forall other, other <> key ->
           dict_get String.eqb other table' = dict_get String.eqb other table) /\
        total_of table' = (total_of table + 1)%Z
  | None => table' = table
  end.
Proof.
  unfold track_page_transition. simpl. split.
  - apply (dict_get_set_same String.eqb string_eqb_spec).
  - destruct (dict_get String.eqb "previous_page" session) as [p|];
      [|reflexivity].
    simpl. destruct (String.eqb p ""); simpl; [reflexivity|].
    split; [|split].
    + unfold increment.
      apply (dict_get_set_same String.eqb string_eqb_spec).
    + intros other Hother. unfold increment.
      now apply (dict_get_set_other String.eqb string_eqb_spec).
    + apply total_of_increment.
Qed.

Section ServerFacts.

Context {F : Type} {num : Numeric F} {pyn : PyNumber F}.

(** What a handler does to the session and the table. *)
Lemma handle_state (r : route) (session : dict string string)
    (table : dict string Z) :
  (snd (fst (handle (F := F) r session table)), snd (handle r session table))
  = match tracked_page r with
    | Some page => track_page_transition page session table
    | None => (session, table)
    end.
Proof.
  destruct r;
    unfold handle, tracked_page, home, subject1, subject2, quit_page, stats;
    try (destruct (track_page_transition _ session table)); reflexivity.
Qed.

Lemma tracked_page_title (r : route) (page : string) :
  tracked_page r = Some page -> In page titles /\ String.eqb page "" = false.
Proof.
  destruct r; simpl; intros E; inversion E; subst; simpl; tauto.
Qed.

Lemma serve_sessions (s : server) (b : nat) (r : route) :
  sessions (serve (F := F) s (b, r))
  = dict_set Nat.eqb b
      (match tracked_page r with
       | Some page =>
           dict_set String.eqb "previous_page" page (session_of b s)
       | None => session_of b s
       end) (sessions s).
Proof.
  unfold serve. pose proof (handle_state r (session_of b s) (page_transitions s)) as H.
  destruct (handle r (session_of b s) (page_transitions s)) as [[resp session'] table'].
  simpl in *. destruct (tracked_page r); unfold track_page_transition in H;
    simpl in H; injection H as -> _; reflexivity.
Qed.

Lemma serve_table (s : server) (b : nat) (r : route) :
  page_transitions (serve (F := F) s (b, r))
  = match tracked_page r, previous_of s b with
    | Some page, Some p =>
        if truthy (Some p)
        then increment (p ++ " -> " ++ page) (page_transitions s)
        else page_transitions s
    | _, _ => page_transitions s
    end.
Proof.
  unfold serve, previous_of.
  pose proof (handle_state r (session_of b s) (page_transitions s)) as H.
  destruct (handle r (session_of b s) (page_transitions s)) as [[resp session'] table'].
  simpl in *. destruct (tracked_page r); unfold track_page_transition in H;
    simpl in H; injection H as _ ->;
    destruct (dict_get String.eqb "previous_page" (session_of b s));
    reflexivity.
Qed.

Lemma previous_of_serve (s : server) (b b' : nat) (r : route) :
  previous_of (serve (F := F) s (b, r)) b'
  = if Nat.eqb b' b
    then match tracked_page r with
         | Some page => Some page
         | None => previous_of s b
         end
    else previous_of s b'.
Proof.
  unfold previous_of, session_of at 1. rewrite serve_sessions.
  destruct (Nat.eqb b' b) eqn:E.
  - apply Nat.eqb_eq in E. subst b'.
    rewrite (dict_get_set_same Nat.eqb nat_eqb_spec).
    destruct (tracked_page r); [|reflexivity].
    apply (dict_get_set_same String.eqb string_eqb_spec).
  - apply Nat.eqb_neq in E.
    rewrite (dict_get_set_other Nat.eqb nat_eqb_spec) by exact E.
    reflexivity.
Qed.

Lemma previous_of_unknown (s : server) (b : nat) :
  ~ In b (keys (sessions s)) -> previous_of s b = None.
Proof.
  intros H. unfold previous_of, session_of.
  apply (dict_get_None Nat.eqb nat_eqb_spec) in H. now rewrite H.
Qed.

Lemma returning_iff (s : server) (b : nat) :
  In b (returning s) <-> truthy (previous_of s b) = true.
Proof.
  unfold returning. rewrite filter_In. split; [tauto|].
  intros H. split; [|exact H].
  destruct (in_dec Nat.eq_dec b (keys (sessions s))) as [Hin|Hout];
    [exact Hin|].
  rewrite (previous_of_unknown s b Hout) in H. discriminate.
Qed.

Lemma returning_NoDup (s : server) :
  NoDup (keys (sessions s)) -> NoDup (returning s).
Proof. intros H. now apply NoDup_filter. Qed.

(** One request: the sessions stay one for each browser, and the total
    of the table and the number of returning browsers go up by one
    together for a recorded page, and stay for [/stats]. *)
Lemma serve_step (s : server) (b : nat) (r : route) :
  NoDup (keys (sessions s)) ->
  NoDup (keys (sessions (serve (F := F) s (b, r)))) /\
  (total_of (page_transitions (serve (F := F) s (b, r)))
   + Z.of_nat (List.length (returning (serve (F := F) s (b, r)))))%Z
  = (total_of (page_transitions s) + Z.of_nat (List.length (returning s))
     + if is_tracked r then 1 else 0)%Z /\
  forall b', In b' (returning (serve (F := F) s (b, r))) <->
             In b' (returning s) \/ (b' = b /\ is_tracked r = true).
Proof.
  intros Hnd.
  assert (Hnd' : NoDup (keys (sessions (serve (F := F) s (b, r))))).
  { rewrite serve_sessions.
    now apply (keys_dict_set_NoDup Nat.eqb nat_eqb_spec). }
  assert (Hmem : forall b', In b' (returning (serve (F := F) s (b, r))) <->
                   In b' (returning s) \/ (b' = b /\ is_tracked r = true)).
  { intros b'. rewrite !returning_iff, previous_of_serve.
    unfold is_tracked.
    destruct (Nat.eqb b' b) eqn:E.
    - apply Nat.eqb_eq in E. subst b'.
      destruct (tracked_page r) as [page|] eqn:Er.
      + destruct (tracked_page_title r page Er) as [_ Hne].
        simpl. rewrite Hne. simpl. tauto.
      + split; [tauto|]. intros [H|[_ H]]; [exact H|discriminate].
    - apply Nat.eqb_neq in E. split; [tauto|].
      intros [H|[H _]]; [exact H|contradiction]. }
  split; [exact Hnd'|]. split; [|exact Hmem].
  pose proof (returning_NoDup s Hnd) as Hr.
  pose proof (returning_NoDup _ Hnd') as Hr'.
  rewrite serve_table. unfold is_tracked.
  destruct (tracked_page r) as [page|] eqn:Er.
  - destruct (truthy (previous_of s b)) eqn:Hwas.
    + (* the browser was here before: one more transition *)
      destruct (previous_of s b) as [p|] eqn:Hp; [|discriminate].
      rewrite Hwas, total_of_increment.
      assert (Hlen : List.length (returning (serve (F := F) s (b, r)))
                     = List.length (returning s)).
      { apply Permutation_length, NoDup_Permutation; try assumption.
        intros b'. rewrite Hmem. unfold is_tracked. rewrite Er.
        split; [|tauto]. intros [H|[-> _]]; [exact H|].
        apply returning_iff. now rewrite Hp. }
      rewrite Hlen. lia.
    + (* its first recorded page: one more returning browser *)
      assert (Hnot : ~ In b (returning s)).
      { rewrite returning_iff. congruence. }
      assert (Hlen : List.length (returning (serve (F := F) s (b, r)))
                     = S (List.length (returning s))).
      { change (S (List.length (returning s)))
          with (List.length (b :: returning s)).
        apply Permutation_length, NoDup_Permutation;
          [assumption|now constructor|].
        intros b'. rewrite Hmem. unfold is_tracked. rewrite Er. simpl.
        split; [intros [H|[-> _]]; auto|intros [->|H]; auto]. }
      rewrite Hlen.
      destruct (previous_of s b) as [p|]; [rewrite Hwas|]; lia.
  - assert (Hlen : List.length (returning (serve (F := F) s (b, r)))
                   = List.length (returning s)).
    { apply Permutation_length, NoDup_Permutation; try assumption.
      intros b'. rewrite Hmem. unfold is_tracked. rewrite Er.
      split; [|tauto]. intros [H|[_ H]]; [exact H|discriminate]. }
    rewrite Hlen. lia.
Qed.

Lemma run_from (requests : list (nat * route)) (s : server) :
  NoDup (keys (sessions s)) ->
  let s' := fold_left (serve (F := F)) requests s in
  NoDup (keys (sessions s')) /\
  (total_of (page_transitions s') + Z.of_nat (List.length (returning s')))%Z
  = (total_of (page_transitions s) + Z.of_nat (List.length (returning s))
     + Z.of_nat (List.length
                   (filter (fun request => is_tracked (snd request))
                      requests)))%Z /\
  forall b, In b (returning s') <->
            In b (returning s) \/
            exists r, In (b, r) requests /\ is_tracked r = true.
Proof.
  revert s. induction requests as [|[b r] requests IH]; intros s Hnd;
    cbn [fold_left]; cbv zeta.
  - split; [exact Hnd|]. split; [simpl; lia|]. intros b. split; [tauto|].
    intros [H|(r & [] & _)]. exact H.
  - destruct (serve_step s b r Hnd) as (Hnd' & Hsum & Hmem).
    destruct (IH _ Hnd') as (Hnd'' & Hsum' & Hmem').
    split; [exact Hnd''|]. split.
    + rewrite Hsum', Hsum. cbn [filter snd].
      destruct (is_tracked r); cbn [List.length]; lia.
    + intros b'. rewrite Hmem', Hmem. split.
      * intros [[H|[-> H]]|(r' & Hin & Ht)]; [tauto| |].
        -- right. exists r. split; [now left|exact H].
        -- right. exists r'. split; [now right|exact Ht].
      * intros [H|(r' & [E|Hin] & Ht)]; [tauto| |].
        -- injection E as <- <-. tauto.
        -- right. exists r'. tauto.
Qed.


Lemma values_dict_set {K} (eqb : K -> K -> bool) (P : Z -> Prop) (k : K)
    (v : Z) (d : dict K Z) :
  Forall P (values d) -> P v -> Forall P (values (dict_set eqb k v d)).
Proof.
  intros Hd Hv. induction d as [|[k' v'] d IH]; simpl.
  - now constructor.
  - unfold values in *. simpl in Hd. apply Forall_cons_iff in Hd as [H1 H2].
    destruct (eqb k k'); simpl; constructor; auto.
Qed.

Lemma count_of_nonneg (key : string) (table : dict string Z) :
  Forall (fun c => 1 <= c)%Z (values table) -> (0 <= count_of key table)%Z.
Proof.
  unfold count_of. induction table as [|[k c] d IH]; simpl; intros H; [lia|].
  unfold values in H. simpl in H. apply Forall_cons_iff in H as [H1 H2].
  destruct (String.eqb key k); [lia|now apply IH].
Qed.

Lemma transition_named (p q : string) :
  In p titles -> In q titles -> In (p ++ " -> " ++ q) all_transitions.
Proof.
  intros Hp Hq. unfold all_transitions. apply in_flat_map.
  exists p. split; [exact Hp|]. apply in_map_iff. now exists q.
Qed.

Lemma run_table (requests : list (nat * route)) (s : server) :
  NoDup (keys (page_transitions s)) ->
  Forall (fun c => 1 <= c)%Z (values (page_transitions s)) ->
  incl (keys (page_transitions s)) all_transitions ->
  (forall b p, previous_of s b = Some p -> In p titles) ->
  let s' := fold_left (serve (F := F)) requests s in
  NoDup (keys (page_transitions s')) /\
  Forall (fun c => 1 <= c)%Z (values (page_transitions s')) /\
  incl (keys (page_transitions s')) all_transitions.
Proof.
  revert s. induction requests as [|[b r] requests IH];
    intros s Hnd Hpos Hincl Hprev; cbn [fold_left]; cbv zeta.
  - auto.
  - apply IH.
    + rewrite serve_table.
      destruct (tracked_page r), (previous_of s b); try exact Hnd.
      destruct (truthy (Some s1)); [|exact Hnd].
      now apply (keys_dict_set_NoDup String.eqb string_eqb_spec).
    + rewrite serve_table.
      destruct (tracked_page r), (previous_of s b); try exact Hpos.
      destruct (truthy (Some s1)); [|exact Hpos].
      apply values_dict_set; [exact Hpos|].
      pose proof (count_of_nonneg (s1 ++ " -> " ++ s0) _ Hpos). lia.
    + rewrite serve_table.
      destruct (tracked_page r) as [page|] eqn:Er; [|exact Hincl].
      destruct (previous_of s b) as [p|] eqn:Ep; [|exact Hincl].
      destruct (truthy (Some p)); [|exact Hincl].
      unfold increment. rewrite (keys_dict_set String.eqb string_eqb_spec).
      destruct (dict_get String.eqb _ (page_transitions s)); [exact Hincl|].
      apply incl_app; [exact Hincl|].
      intros k [<-|[]]. apply transition_named.
      * now apply (Hprev b).
      * now apply (tracked_page_title r).
    + intros b' p. rewrite previous_of_serve.
      destruct (Nat.eqb b' b); [|apply Hprev].
      destruct (tracked_page r) as [page|] eqn:Er; [|apply Hprev].
      intros E. injection E as <-. now apply (tracked_page_title r).
Qed.


End ServerFacts.

Section StatsFacts.

Local Open Scope R_scope.

Lemma IZR_total_of (table : dict string Z) :
  IZR (total_of table) = Rsum (map (fun item => IZR (snd item)) table).
Proof.
  induction table as [|[k c] d IH]; [reflexivity|].
  rewrite total_of_cons, plus_IZR, IH. reflexivity.
Qed.

Lemma Rsum_shares (T : R) (table : dict string Z) :
  Rsum (map (fun item => IZR (snd item) / T * 100) table)
  = Rsum (map (fun item => IZR (snd item)) table) / T * 100.
Proof.
  unfold Rsum. induction table as [|[k c] d IH]; simpl.
  - unfold Rdiv. ring.
  - rewrite IH. unfold Rdiv. ring.
Qed.


End StatsFacts.

End WebsiteFacts.

